(** * Vector visualization core: graph matrices, vector utilities, colouring

    A shallow embedding of the numerical core of the plugin:
    - [AdjacencyMatrixBuilder::build] and [matrix_to_vectors]
      (rust/src/adjacency_matrix.rs, as given in vector_plan.md),
    - [normalize_vectors] (rust/src/vector_ops.rs),
    - the cluster count of [VectorDataManager.fetchVectors] and the
      "Categorical" colour scheme (TypeScript).

    Rust's [usize] is modelled as [N] with its width and overflow behaviour
    written out, [f64] as the kernel's binary64 floats, [HashMap] as [gmap],
    [Vec] as [list], and a panic as a third outcome next to [Ok] and [Err]. *)

From Stdlib Require Import ZArith NArith Floats List Lia.
From stdpp Require Import gmap list strings.

Set Warnings "-inexact-float".

Local Open Scope N_scope.

(** ** Errors and outcomes *)

(** [PluginError], the variants listed for rust/src/error.rs. *)
Inductive PluginError : Type :=
| DimensionalityReductionError (method reason : string)
| InvalidVectorDimensions (expected got vector_index : N)
| InsufficientData (required provided : N)
| InvalidLinkIndex (from to max : N)
| ZeroNormVector.

(** What a call of a Rust function returning [Result<A, PluginError>] does:
    it returns [Ok], returns [Err], or panics. *)
Inductive outcome (A : Type) : Type :=
| Ok (a : A)
| Err (e : PluginError)
| Panic.
Arguments Ok {A} a.
Arguments Err {A} e.
Arguments Panic {A}.

#[global] Instance outcome_bind : MBind outcome := fun A B k x =>
  match x with
  | Ok a => k a
  | Err e => Err e
  | Panic => Panic
  end.

(** [iter.map(f).collect::<Result<Vec<_>, _>>()]: the first failure ends the
    traversal and is the result of the whole collection. *)
Fixpoint collect {A B : Type} (f : A -> outcome B) (l : list A) : outcome (list B) :=
  match l with
  | [] => Ok []
  | a :: l' => b ← f a; bs ← collect f l'; Ok (b :: bs)
  end.

(** The range [0..n] of usize values. *)
Definition range (n : N) : list N := map N.of_nat (seq 0 (N.to_nat n)).

(** ** sprs: triplet and compressed matrices

    The sparse-matrix crate is used through four operations, modelled by
    what they are documented to do. *)

(** [TriMat<f64>]: a shape and the triplets in insertion order. *)
Record TriMat : Type := mkTriMat {
  tri_rows : N;
  tri_cols : N;
  tri_data : list (N * N * float)
}.

Definition TriMat_new (shape : N * N) : TriMat :=
  mkTriMat (fst shape) (snd shape) [].

(** [add_triplet] asserts that the position lies inside the shape. *)
Definition add_triplet (t : TriMat) (row col : N) (val : float) : outcome TriMat :=
  if (row <? tri_rows t) && (col <? tri_cols t)
  then Ok (mkTriMat (tri_rows t) (tri_cols t) (tri_data t ++ [(row, col, val)]))
  else Panic.

(** [CsMat<f64>] in row-major (CSR) storage: the stored cells by position. *)
Record CsMat : Type := mkCsMat {
  cs_rows : N;
  cs_cols : N;
  cs_data : gmap (N * N) float
}.

(** [to_csr] sums the values of triplets that share a position. *)
Definition csr_insert (data : gmap (N * N) float) (t : N * N * float) : gmap (N * N) float :=
  let '(row, col, val) := t in
  match data !! (row, col) with
  | Some old => <[(row, col) := PrimFloat.add old val]> data
  | None => <[(row, col) := val]> data
  end.

Definition to_csr (t : TriMat) : CsMat :=
  mkCsMat (tri_rows t) (tri_cols t) (fold_left csr_insert (tri_data t) ∅).

(** [outer_view(i)]: [None] when [i] is not a row; otherwise the stored
    cells of row [i] as (column, value), by increasing column. *)
Definition outer_view (m : CsMat) (i : N) : option (list (N * float)) :=
  if i <? cs_rows m
  then Some (omap (fun j => (fun v => (j, v)) <$> cs_data m !! (i, j)) (range (cs_cols m)))
  else None.

(** ** adjacency_matrix.rs *)

Record NoteLink : Type := mkNoteLink { from_id : N; to_id : N }.

(** [count as f64]: the integer rounded to the nearest binary64, ties to
    even. *)
Definition usize_as_f64 (c : N) : float :=
  SF2Prim (binary_normalize 53 1024 (Z.of_N c) 0 false).

(** [vec[col] = val]: an index outside the vector panics. *)
Definition set_index (vec : list float) (col : N) (val : float) : outcome (list float) :=
  if col <? N.of_nat (length vec) then Ok (<[N.to_nat col := val]> vec) else Panic.

(** The inner loop of [matrix_to_vectors] over the cells of one row. *)
Definition fill_row (vec : list float) (row : list (N * float)) : outcome (list float) :=
  fold_left (fun acc cv => v ← acc; set_index v (fst cv) (snd cv)) row (Ok vec).

(** [AdjacencyMatrixBuilder::matrix_to_vectors]; [outer_view(i).unwrap()]
    panics on [None]. *)
Definition matrix_to_vectors (num_notes : N) (matrix : CsMat) : outcome (list (list float)) :=
  collect (fun i =>
    match outer_view matrix i with
    | None => Panic
    | Some row => fill_row (replicate (N.to_nat num_notes) 0%float) row
    end) (range num_notes).

(** The second loop of [build]: one triplet per counted pair. *)
Fixpoint add_counts (t : TriMat) (entries : list (N * N * N)) : outcome TriMat :=
  match entries with
  | [] => Ok t
  | (from, to, count) :: rest =>
      t' ← add_triplet t from to (usize_as_f64 count);
      add_counts t' rest
  end.

Section Usize.
(** Width of [usize] on the target (32 for wasm32, 64 for the native test
    build) and whether overflow checks are compiled in (debug profile). *)
Variable usize_bits : N.
Variable overflow_checks : bool.

Definition usize_modulus : N := 2 ^ usize_bits.

(** [a + b] and [a - b] on [usize]: outside the range the operation panics
    under overflow checks and wraps around otherwise. *)
Definition usize_add (a b : N) : outcome N :=
  if a + b <? usize_modulus then Ok (a + b)
  else if overflow_checks then Panic
  else Ok ((a + b) mod usize_modulus).

Definition usize_sub (a b : N) : outcome N :=
  if b <=? a then Ok (a - b)
  else if overflow_checks then Panic
  else Ok ((usize_modulus + a - b) mod usize_modulus).

(** The first loop of [build]: validate each link and count it,
    [*link_counts.entry((from, to)).or_insert(0) += 1]. *)
Fixpoint count_links (num_notes : N) (links : list NoteLink)
    (link_counts : gmap (N * N) N) : outcome (gmap (N * N) N) :=
  match links with
  | [] => Ok link_counts
  | link :: rest =>
      if (num_notes <=? from_id link) || (num_notes <=? to_id link) then
        max ← usize_sub num_notes 1;
        Err (InvalidLinkIndex (from_id link) (to_id link) max)
      else
        let key := (from_id link, to_id link) in
        count ← usize_add (default 0 (link_counts !! key)) 1;
        count_links num_notes rest (<[key := count]> link_counts)
  end.

(** [AdjacencyMatrixBuilder::build]. The builder is represented by its
    [num_notes] ([note_id_map] is read by neither method); the hash map is
    iterated in the order of [map_to_list]. *)
Definition build (num_notes : N) (links : list NoteLink) : outcome CsMat :=
  let triplets := TriMat_new (num_notes, num_notes) in
  link_counts ← count_links num_notes links ∅;
  triplets' ← add_counts triplets (map_to_list link_counts);
  Ok (to_csr triplets').

(** [build_adjacency_matrix] between parsing and serialisation. *)
Definition build_adjacency_matrix (num_notes : N) (links : list NoteLink)
    : outcome (list (list float)) :=
  matrix ← build num_notes links;
  matrix_to_vectors num_notes matrix.

End Usize.

(** ** The graph as the data model has it (counts) *)

(** The number of links from [i] to [j], and the out-degree of [i]. *)
Definition count_edges (i j : N) (links : list NoteLink) : N :=
  N.of_nat (length (filter (fun l => from_id l = i /\ to_id l = j) links)).

Definition out_degree (i : N) (links : list NoteLink) : N :=
  N.of_nat (length (filter (fun l => from_id l = i) links)).

Definition valid_link (num_notes : N) (l : NoteLink) : Prop :=
  from_id l < num_notes /\ to_id l < num_notes.

(** One round of the counting loop of [build] on a valid link, without the
    overflow check. *)
Definition bump (link_counts : gmap (N * N) N) (l : NoteLink) : gmap (N * N) N :=
  <[(from_id l, to_id l) := default 0 (link_counts !! (from_id l, to_id l)) + 1]> link_counts.

(** Entry [(i, j)] of a list of dense vectors. *)
Definition cell (vs : list (list float)) (i j : N) : option float :=
  vs !! N.to_nat i ≫= fun row => row !! N.to_nat j.

(** The links of [test_adjacency_matrix_basic]. *)
Definition basic_links : list NoteLink :=
  [mkNoteLink 0 1; mkNoteLink 0 2; mkNoteLink 1 2].

(** ** The Laplacian *)

(** Cell [(i, j)] of the sparse count matrix that the first loop of [build]
    accumulates; an absent cell is 0. *)
Definition count_cell (link_counts : gmap (N * N) N) (i j : N) : Z :=
  Z.of_N (default 0 (link_counts !! (i, j))).

Definition sumZ (l : list Z) : Z := fold_right Z.add 0%Z l.

(** Row [i] of the adjacency matrix, as dense counts. *)
Definition adjacency_row (n : N) (link_counts : gmap (N * N) N) (i : N) : list Z :=
  map (count_cell link_counts i) (range n).

(** Modelled from the spec: the degree diagonal of [toLaplacian]; the Rust
    function behind [build_laplacian_matrix] is not part of the sources.
    [D[i][i] = sum_j matrix[i][j]], and [D] is 0 off the diagonal. *)
Definition degree_diagonal (n : N) (link_counts : gmap (N * N) N) (i j : N) : Z :=
  if i =? j then sumZ (adjacency_row n link_counts i) else 0%Z.

(** Modelled from the spec: [toLaplacian], [L = D - matrix], over the counts
    of the sparse matrix; the Rust function is not part of the sources. *)
Definition toLaplacian (n : N) (link_counts : gmap (N * N) N) (i j : N) : Z :=
  (degree_diagonal n link_counts i j - count_cell link_counts i j)%Z.

(** Modelled from the spec: [toDenseVectors] of the Laplacian, one row per
    node, each of length [n]. *)
Definition laplacian_rows (n : N) (link_counts : gmap (N * N) N) : list (list Z) :=
  map (fun i => map (toLaplacian n link_counts i) (range n)) (range n).

(** ** dimensionality_reduction.rs *)

Section Reduce.
(** Steps 3 to 6 of [reduce] (centering, nalgebra's SVD, projection); the
    body of [SVDReducer::reduce] is not part of the sources. *)
Variable center_decompose_project : list (list float) -> N -> list (list float).

(** Modelled from the spec: the requirements that [reduce] checks before
    any computation (steps 1 and 2 of section 4.2); the body of
    [SVDReducer::reduce] is not part of the sources. [d] is the length the
    vectors share; the spec does not say what [vector_index] carries. *)
Definition reduce (vectors : list (list float)) (target_dims : N)
    : outcome (list (list float)) :=
  let n := N.of_nat (length vectors) in
  match vectors with
  | [] => Err (InsufficientData 1 n)
  | first :: _ =>
      let d := N.of_nat (length first) in
      if d <? 1 then Err (InsufficientData 1 d)
      else if N.min n d <? target_dims
      then Err (InvalidVectorDimensions (N.min n d) target_dims 0)
      else Ok (center_decompose_project vectors target_dims)
  end.
End Reduce.

(** ** vector_ops.rs *)

(** [vec.iter().map(|x| x * x).sum::<f64>().sqrt()] *)
Definition euclidean_norm (vec : list float) : float :=
  PrimFloat.sqrt (fold_left PrimFloat.add (map (fun x => x * x)%float vec) 0%float).

(** The closure of [normalize_vectors], applied to one vector. *)
Definition normalize_one (vec : list float) : outcome (list float) :=
  let norm := euclidean_norm vec in
  if (norm <? 1e-10)%float then Err ZeroNormVector
  else Ok (map (fun x => x / norm)%float vec).

Definition normalize_vectors (vectors : list (list float)) : outcome (list (list float)) :=
  collect normalize_one vectors.

(** The test [norm < 1e-10] of the closure, and the vector it returns
    otherwise. *)
Definition zero_norm (vec : list float) : bool :=
  (euclidean_norm vec <? 1e-10)%float.

Definition divide_by_norm (vec : list float) : list float :=
  map (fun x => x / euclidean_norm vec)%float vec.

(** ** ColorSchemes.ts *)

(** [new THREE.Color(hex)]; without an argument ([undefined]) the colour
    keeps its default, white. *)
Inductive Color : Type :=
| ColorHex (hex : Z)
| ColorDefault.

Definition palette : list Z :=
  [0xff6b6b; 0x4ecdc4; 0x45b7d1; 0xf7b731; 0x5f27cd; 0x00d2d3; 0xff9ff3; 0x54a0ff]%Z.

(** [palette[k]] for an integer [k]: [undefined] outside the array. *)
Definition js_index {A : Type} (l : list A) (k : Z) : option A :=
  if (k <? 0)%Z then None else l !! Z.to_nat k.

(** [getColor] of the "Categorical" scheme; [%] is JavaScript's remainder,
    which takes the sign of the dividend. *)
Definition categorical_getColor (index _total : Z) : Color :=
  match js_index palette (Z.rem index (Z.of_nat (length palette))) with
  | Some hex => ColorHex hex
  | None => ColorDefault
  end.

(** ** VectorDataManager.ts *)

Inductive VectorSourceType : Type := EMBEDDING_MODEL | ADJACENCY_MATRIX.

Definition VectorSourceType_value (t : VectorSourceType) : string :=
  match t with
  | EMBEDDING_MODEL => "embedding_model"
  | ADJACENCY_MATRIX => "adjacency_matrix"
  end.

(** [VectorSourceConfig] without its provider-specific [config]. *)
Record VectorSourceConfig : Type := mkConfig {
  cfg_type : VectorSourceType;
  cfg_id : string;
  cfg_name : string;
  cfg_dimensionality : N
}.

(** [VectorDataPoint] without the optional [metadata]. *)
Record VectorDataPoint : Type := mkPoint {
  pt_id : string;
  pt_label : string;
  pt_vector : list float;
  pt_position3d : list float;
  pt_cluster : N;
  pt_sourceId : string;
  pt_sourceName : string;
  pt_sourceType : VectorSourceType
}.

(** A JavaScript call returns or throws. *)
Inductive js (A : Type) : Type :=
| Returned (a : A)
| Thrown (error : string).
Arguments Returned {A} a.
Arguments Thrown {A} error.

(** The calls that cross the WASM boundary, in the order they are made. *)
Inductive wasm_call : Type :=
| Call_reduce_dimensions_svd (vectors : list (list float)) (target_dims : N)
| Call_cluster_vectors (vectors : list (list float)) (num_clusters : N).

(** [Math.min(10, Math.max(3, Math.floor(length / 50)))]; [length] is an
    array length, for which the floor of the quotient is integer division. *)
Definition clusterCount (length : N) : N := N.min 10 (N.max 3 (length / 50)).

Section VectorDataManager.
(** The two functions imported from the WASM package, JSON encoding
    apart, the vault name, and the registered providers. *)
Variable reduce_dimensions_svd : list (list float) -> N -> js (list (list float)).
Variable cluster_vectors : list (list float) -> N -> js (list N).
Variable vaultName : string.
Variable sourceProviders :
  VectorSourceType -> option (VectorSourceConfig -> js (list VectorDataPoint)).

Definition getCacheKey (sourceConfig : VectorSourceConfig) : string :=
  VectorSourceType_value (cfg_type sourceConfig) +:+ ":" +:+ cfg_id sourceConfig
    +:+ ":" +:+ vaultName.

(** The merge of [fetchVectors]:
    [position3d: reduced3d[i] || [0, 0, 0], cluster: clusters[i] || 0]. *)
Definition merge_point (reduced3d : list (list float)) (clusters : list N)
    (i : nat) (v : VectorDataPoint) : VectorDataPoint :=
  mkPoint (pt_id v) (pt_label v) (pt_vector v)
    (default [0; 0; 0]%float (reduced3d !! i))
    (default 0 (clusters !! i))
    (pt_sourceId v) (pt_sourceName v) (pt_sourceType v).

(** [fetchVectors], with the cache passed in and out and the WASM calls it
    makes listed; logging is left out. *)
Definition fetchVectors (cache : gmap string (list VectorDataPoint))
    (sourceConfig : VectorSourceConfig)
    : js (list VectorDataPoint) * gmap string (list VectorDataPoint) * list wasm_call :=
  let cacheKey := getCacheKey sourceConfig in
  match cache !! cacheKey with
  | Some cached => (Returned cached, cache, [])
  | None =>
      match sourceProviders (cfg_type sourceConfig) with
      | None =>
          (Thrown ("No provider registered for source type: "
                   +:+ VectorSourceType_value (cfg_type sourceConfig)), cache, [])
      | Some provider =>
          match provider sourceConfig with
          | Thrown e => (Thrown e, cache, [])
          | Returned rawVectors =>
              if N.of_nat (length rawVectors) =? 0 then (Returned [], cache, [])
              else
                let vectors := map pt_vector rawVectors in
                let call1 := Call_reduce_dimensions_svd vectors 3 in
                match reduce_dimensions_svd vectors 3 with
                | Thrown e => (Thrown e, cache, [call1])
                | Returned reduced3d =>
                    let clusterCount := clusterCount (N.of_nat (length vectors)) in
                    let call2 := Call_cluster_vectors vectors clusterCount in
                    match cluster_vectors vectors clusterCount with
                    | Thrown e => (Thrown e, cache, [call1; call2])
                    | Returned clusters =>
                        let vectorsWithReduction :=
                          imap (merge_point reduced3d clusters) rawVectors in
                        (Returned vectorsWithReduction,
                         <[cacheKey := vectorsWithReduction]> cache,
                         [call1; call2])
                    end
                end
          end
      end
  end.
End VectorDataManager.

(** ** AdjacencyMatrixBuilder::new *)

(** Keys inserted one after the other with their position, as both
    [enumerate().map(|(i, path)| (path, i)).collect()] into a [HashMap] and
    [new Map(notePaths.map((path, i) => [path, i]))] do: a key that comes
    again replaces the earlier entry. *)
Fixpoint index_from (k : N) (paths : list string) (m : gmap string N) : gmap string N :=
  match paths with
  | [] => m
  | path :: rest => index_from (k + 1) rest (<[path := k]> m)
  end.

Definition index_by_path (paths : list string) : gmap string N :=
  index_from 0 paths ∅.

Record AdjacencyMatrixBuilder : Type := mkBuilder {
  num_notes : N;
  note_id_map : gmap string N
}.

Definition AdjacencyMatrixBuilder_new (note_paths : list string) : AdjacencyMatrixBuilder :=
  mkBuilder (N.of_nat (length note_paths)) (index_by_path note_paths).

(** ** AdjacencyMatrixProvider.ts *)

Record TFile : Type := mkTFile { tf_path : string; tf_basename : string }.

(** The TypeScript [NoteLink], serialised for [build_adjacency_matrix]. *)
Record TsNoteLink : Type := mkTsNoteLink { fromId : N; toId : N }.

Definition to_NoteLink (l : TsNoteLink) : NoteLink := mkNoteLink (fromId l) (toId l).

(** [VectorSourceConfig["config"]]: the two provider-specific shapes. *)
Inductive SourceConfig : Type :=
| EmbeddingSourceConfig (modelName qdrantCollection : string) (endpoint : option string)
| AdjacencySourceConfig (graphType : string) (normalize : bool).

(** ["graphType" in config] *)
Definition isAdjacencySourceConfig (config : SourceConfig) : bool :=
  match config with
  | AdjacencySourceConfig _ _ => true
  | EmbeddingSourceConfig _ _ _ => false
  end.

(** A data point of the adjacency provider with its [metadata]. *)
Record AdjacencyDataPoint : Type := mkAdjacencyDataPoint {
  adp_point : VectorDataPoint;
  adp_metadata_path : string;
  adp_metadata_linkCount : N
}.

(** [s.endsWith(suffix)] *)
Definition endsWith (s suffix : string) : bool :=
  let n := String.length s in
  let k := String.length suffix in
  (k <=? n)%nat && String.eqb (String.substring (n - k) k s) suffix.

(** A JavaScript string is falsy exactly when it is empty. *)
Definition truthy_string (s : string) : bool := negb (String.eqb s "").

Section AdjacencyMatrixProvider.
(** The environment of the provider: the successive captures that [exec]
    yields for the two global regular expressions (group 1 of the wiki-link
    pattern, group 2 of the markdown-link pattern), Obsidian's link
    resolution and file contents, and the two WASM functions, JSON encoding
    apart. *)
Variable wikiLinkRegex_exec : string -> list string.
Variable mdLinkRegex_exec : string -> list string.
Variable getFirstLinkpathDest : string -> string -> option TFile.
Variable read : TFile -> js string.
Variable wasm_build_adjacency_matrix : list string -> list TsNoteLink -> js (list (list float)).
Variable wasm_build_laplacian_matrix : list string -> list TsNoteLink -> js (list (list float)).

Definition extractLinks (content : string) (sourceFile : TFile) : list string :=
  let wiki :=
    omap (fun linkText =>
            if truthy_string linkText
            then tf_path <$> getFirstLinkpathDest linkText (tf_path sourceFile)
            else None)
         (wikiLinkRegex_exec content) in
  let md :=
    omap (fun linkPath =>
            if truthy_string linkPath && endsWith linkPath ".md"
            then tf_path <$> getFirstLinkpathDest linkPath (tf_path sourceFile)
            else None)
         (mdLinkRegex_exec content) in
  wiki ++ md.

(** The loop of [fetchVectors] over the files; [links] is what has been
    pushed so far. A failing [read] ends it. *)
Fixpoint extract_all (pathToId : gmap string N) (files : list TFile)
    (links : list TsNoteLink) : js (list TsNoteLink) :=
  match files with
  | [] => Returned links
  | file :: rest =>
      match pathToId !! tf_path file with
      | None => extract_all pathToId rest links
      | Some fromId =>
          match read file with
          | Thrown e => Thrown e
          | Returned content =>
              let pushed :=
                omap (fun linkedPath => mkTsNoteLink fromId <$> pathToId !! linkedPath)
                     (extractLinks content file) in
              extract_all pathToId rest (links ++ pushed)
          end
      end
  end.

(** [files.map((file, i) => ...)] at the end of [fetchVectors]. *)
Definition adjacency_point (config : VectorSourceConfig) (vectors : list (list float))
    (links : list TsNoteLink) (i : nat) (file : TFile) : AdjacencyDataPoint :=
  mkAdjacencyDataPoint
    (mkPoint (tf_path file) (tf_basename file) (default [] (vectors !! i))
       [0; 0; 0]%float 0 (cfg_id config) (cfg_name config) (cfg_type config))
    (tf_path file)
    (N.of_nat (length (filter (fun l => fromId l = N.of_nat i) links))).

(** [AdjacencyMatrixProvider.fetchVectors] for the markdown files of the
    vault; [specific] is [config.config]. *)
Definition adjacency_fetchVectors (files : list TFile) (config : VectorSourceConfig)
    (specific : SourceConfig) : js (list AdjacencyDataPoint) :=
  let notePaths := map tf_path files in
  let pathToId := index_by_path notePaths in
  match extract_all pathToId files [] with
  | Thrown e => Thrown e
  | Returned links =>
      match specific with
      | EmbeddingSourceConfig _ _ _ => Thrown "Invalid config for AdjacencyMatrixProvider"
      | AdjacencySourceConfig graphType _ =>
          let built :=
            if String.eqb graphType "laplacian"
            then wasm_build_laplacian_matrix notePaths links
            else wasm_build_adjacency_matrix notePaths links in
          match built with
          | Thrown e => Thrown e
          | Returned vectors => Returned (imap (adjacency_point config vectors links) files)
          end
      end
  end.
End AdjacencyMatrixProvider.

(** ** EmbeddingSourceProvider.ts *)

Record QdrantCollection : Type := mkQdrantCollection {
  qc_name : string;
  qc_vectors_count : option N
}.

(** [QdrantPoint]; of the payload only [title] is read. *)
Record QdrantPoint : Type := mkQdrantPoint {
  qp_id : string;
  qp_vector : list float;
  qp_payload_title : option string
}.

(** What [await fetch(url)] resolves to: [ok], [statusText] and the outcome
    of [response.json()]. *)
Record Response (A : Type) : Type := mkResponse {
  ok : bool;
  statusText : string;
  json : js A
}.
Arguments mkResponse {A} ok statusText json.
Arguments ok {A} r.
Arguments statusText {A} r.
Arguments json {A} r.

Definition default_endpoint : string := "http://localhost:6333".

(** One entry of [collections.map(...)] in [discoverSources]. *)
Definition collection_source (collection : QdrantCollection)
    : VectorSourceConfig * SourceConfig :=
  (mkConfig EMBEDDING_MODEL (qc_name collection)
     (qc_name collection +:+ " (Embedding)")
     (match qc_vectors_count collection with
      | Some 0 | None => 1536
      | Some count => count
      end),
   EmbeddingSourceConfig (qc_name collection) (qc_name collection) (Some default_endpoint)).

(** [discoverSources]; [data.result?.collections] is an optional field of
    an optional field. Every failure is caught and gives no source. *)
Definition discoverSources
    (fetch : string -> js (Response (option (option (list QdrantCollection)))))
    : list (VectorSourceConfig * SourceConfig) :=
  match fetch (default_endpoint +:+ "/collections") with
  | Thrown _ => []
  | Returned response =>
      if negb (ok response) then []
      else match json response with
           | Thrown _ => []
           | Returned data =>
               let collections := default [] (data ≫= id) in
               map collection_source collections
           end
  end.

(** One entry of [points.map(...)] in [fetchVectors]. *)
Definition embedding_point (config : VectorSourceConfig) (point : QdrantPoint)
    : VectorDataPoint :=
  mkPoint (qp_id point)
    (match qp_payload_title point with
     | Some title => if truthy_string title then title else qp_id point
     | None => qp_id point
     end)
    (qp_vector point) [0; 0; 0]%float 0
    (cfg_id config) (cfg_name config) (cfg_type config).

(** [EmbeddingSourceProvider.fetchVectors]; [config.config] is read as an
    [EmbeddingSourceConfig] whatever it is, so the fields of another shape
    are [undefined]. *)
Definition embedding_fetchVectors
    (fetch : string -> js (Response (option (option (list QdrantPoint)))))
    (config : VectorSourceConfig) (specific : SourceConfig) : js (list VectorDataPoint) :=
  let endpoint :=
    match specific with
    | EmbeddingSourceConfig _ _ (Some e) => if truthy_string e then e else default_endpoint
    | _ => default_endpoint
    end in
  let qdrantCollection :=
    match specific with
    | EmbeddingSourceConfig _ c _ => c
    | AdjacencySourceConfig _ _ => "undefined"
    end in
  match fetch (endpoint +:+ "/collections/" +:+ qdrantCollection +:+ "/points/scroll") with
  | Thrown e => Thrown e
  | Returned response =>
      if negb (ok response)
      then Thrown ("Failed to fetch vectors: " +:+ statusText response)
      else match json response with
           | Thrown e => Thrown e
           | Returned data =>
               let points := default [] (data ≫= id) in
               Returned (map (embedding_point config) points)
           end
  end.

(** ** VectorDataManager.discoverAvailableSources and the source selector *)

(** The source pushed for the link graph. *)
Definition forward_links_source (files : list TFile) : VectorSourceConfig * SourceConfig :=
  (mkConfig ADJACENCY_MATRIX "forward-links" "Forward Links Graph" (N.of_nat (length files)),
   AdjacencySourceConfig "forward-links" true).

(** [discoverAvailableSources]; [embeddingProvider] is the registered
    provider's [discoverSources], if one is registered. *)
Definition discoverAvailableSources
    (embeddingProvider : option (list (VectorSourceConfig * SourceConfig)))
    (files : list TFile) : list (VectorSourceConfig * SourceConfig) :=
  let sources := match embeddingProvider with
                 | Some embeddingSources => embeddingSources
                 | None => []
                 end in
  sources ++ [forward_links_source files].

(** [onSourceChanged]: [availableSources.find((s) => s.id === sourceId)],
    where [sourceId] is the value of the selected option. *)
Definition onSourceChanged (availableSources : list (VectorSourceConfig * SourceConfig))
    (sourceId : string) : option (VectorSourceConfig * SourceConfig) :=
  List.find (fun s => String.eqb (cfg_id (fst s)) sourceId) availableSources.

(** * Properties *)

(** ** Generic facts: outcomes, ranges, sums *)

Lemma range_length n : length (range n) = N.to_nat n.
Proof. unfold range. by rewrite length_map, length_seq. Qed.

Lemma range_lookup n i : i < n -> range n !! N.to_nat i = Some i.
Proof.
  intros Hi. unfold range. rewrite list_lookup_fmap, lookup_seq_lt by lia.
  simpl. f_equal. lia.
Qed.

Lemma elem_of_range n j : j ∈ range n <-> j < n.
Proof.
  unfold range. rewrite list_elem_of_fmap. split.
  - intros (k & -> & Hk). apply elem_of_seq in Hk. lia.
  - intros Hj. exists (N.to_nat j). split; [lia|]. apply elem_of_seq. lia.
Qed.

Lemma collect_Forall2 {A B : Type} (f : A -> outcome B) (P : A -> B -> Prop) (l : list A) :
  (forall a, a ∈ l -> exists b, f a = Ok b /\ P a b) ->
  exists bs, collect f l = Ok bs /\ Forall2 P l bs.
Proof.
  induction l as [|a l IH]; intros Hf.
  - exists []. split; [done | constructor].
  - destruct (Hf a) as (b & Hb & HP); [left|].
    destruct IH as (bs & Hbs & HF); [intros; apply Hf; by right|].
    exists (b :: bs). simpl. rewrite Hb. simpl. rewrite Hbs. simpl.
    split; [done | by constructor].
Qed.

Lemma sumZ_app l1 l2 : sumZ (l1 ++ l2) = (sumZ l1 + sumZ l2)%Z.
Proof. induction l1 as [|x l1 IH]; simpl; [done | rewrite IH; lia]. Qed.

Lemma sumZ_map_sub {A : Type} (f g : A -> Z) (l : list A) :
  sumZ (map (fun a => f a - g a)%Z l) = (sumZ (map f l) - sumZ (map g l))%Z.
Proof. induction l as [|a l IH]; simpl; [done | rewrite IH; lia]. Qed.

Lemma sumZ_map_add {A : Type} (f g : A -> Z) (l : list A) :
  sumZ (map (fun a => f a + g a)%Z l) = (sumZ (map f l) + sumZ (map g l))%Z.
Proof. induction l as [|a l IH]; simpl; [done | rewrite IH; lia]. Qed.

Lemma sumZ_map_zero {A : Type} (f : A -> Z) (l : list A) :
  (forall a, a ∈ l -> f a = 0%Z) -> sumZ (map f l) = 0%Z.
Proof.
  induction l as [|a l IH]; intros H; simpl; [done|].
  rewrite H by left. rewrite IH; [done | intros; apply H; by right].
Qed.

(** A function that is [s] at one point of a duplicate-free list and 0
    elsewhere sums to [s]. *)
Lemma sumZ_indicator (t : N) (s : Z) (l : list N) :
  NoDup l -> t ∈ l ->
  sumZ (map (fun j => if t =? j then s else 0%Z) l) = s.
Proof.
  induction l as [|a l IH]; intros Hnd Hin.
  - by apply elem_of_nil in Hin.
  - apply NoDup_cons in Hnd as [Ha Hnd]. simpl.
    destruct (N.eqb_spec t a) as [->|Hne].
    + rewrite sumZ_map_zero; [lia|]. intros b Hb.
      destruct (N.eqb_spec a b) as [->|]; [done | done].
    + apply elem_of_cons in Hin as [->|Hin]; [done|]. rewrite IH by done. lia.
Qed.

Lemma range_NoDup n : NoDup (range n).
Proof.
  unfold range. apply NoDup_fmap_2; [|apply NoDup_seq].
  intros a b. lia.
Qed.

(** ** The counting loop of [build] *)

Section Build.
Variable usize_bits : N.
Variable overflow_checks : bool.

Lemma usize_add_small a b :
  a + b < 2 ^ usize_bits -> usize_add usize_bits overflow_checks a b = Ok (a + b).
Proof.
  intros H. unfold usize_add, usize_modulus.
  by destruct (N.ltb_spec (a + b) (2 ^ usize_bits)); [|lia].
Qed.

(** While the counts cannot reach the modulus, the loop over valid links
    is the plain fold. *)
Lemma count_links_valid n links lc (b : N) :
  Forall (valid_link n) links ->
  (forall k c, lc !! k = Some c -> c <= b) ->
  b + N.of_nat (length links) < 2 ^ usize_bits ->
  count_links usize_bits overflow_checks n links lc = Ok (fold_left bump links lc).
Proof.
  revert lc b. induction links as [|l links IH]; intros lc b Hv Hb Hlen; [done|].
  apply Forall_cons in Hv as [[Hf Ht] Hv]. simpl in *.
  destruct (N.leb_spec n (from_id l)); [lia|].
  destruct (N.leb_spec n (to_id l)); [lia|]. simpl.
  assert (default 0 (lc !! (from_id l, to_id l)) <= b) as Hc.
  { destruct (lc !! (from_id l, to_id l)) as [c|] eqn:E; simpl; [by eapply Hb | lia]. }
  rewrite usize_add_small by lia. simpl.
  apply (IH _ (b + 1)); [done| |lia].
  intros k c. rewrite lookup_insert. case_decide.
  - intros [= <-]. lia.
  - intros Hk. apply Hb in Hk. lia.
Qed.

Lemma count_edges_cons i j l links :
  count_edges i j (l :: links)
  = (if decide (from_id l = i /\ to_id l = j) then 1 else 0) + count_edges i j links.
Proof.
  unfold count_edges. rewrite filter_cons. case_decide; simpl; lia.
Qed.

Lemma out_degree_cons i l links :
  out_degree i (l :: links)
  = (if decide (from_id l = i) then 1 else 0) + out_degree i links.
Proof.
  unfold out_degree. rewrite filter_cons. case_decide; simpl; lia.
Qed.

(** The fold stores exactly the pairs that occur, each with its number of
    occurrences added to what was there. *)
Lemma fold_bump_lookup links lc i j :
  fold_left bump links lc !! (i, j)
  = match lc !! (i, j) with
    | Some c => Some (c + count_edges i j links)
    | None => if count_edges i j links =? 0 then None else Some (count_edges i j links)
    end.
Proof.
  revert lc. induction links as [|l links IH]; intros lc.
  - simpl. unfold count_edges. simpl. destruct (lc !! (i, j)); [f_equal; lia | done].
  - simpl. rewrite IH, count_edges_cons. unfold bump.
    rewrite lookup_insert. case_decide as Hk.
    + injection Hk as -> ->. rewrite decide_True by done.
      destruct (lc !! (i, j)); simpl; [f_equal; lia|].
      destruct (N.eqb_spec (1 + count_edges i j links) 0); [lia | f_equal; lia].
    + rewrite decide_False by (intros [? ?]; apply Hk; congruence).
      destruct (lc !! (i, j)); simpl; [f_equal; lia | done].
Qed.

Lemma fold_bump_empty links i j c :
  fold_left bump links ∅ !! (i, j) = Some c ->
  c = count_edges i j links /\ 0 < c.
Proof.
  rewrite fold_bump_lookup, lookup_empty.
  destruct (N.eqb_spec (count_edges i j links) 0); [done|].
  intros [= <-]. lia.
Qed.

Lemma count_edges_valid n links i j :
  Forall (valid_link n) links -> 0 < count_edges i j links -> i < n /\ j < n.
Proof.
  induction 1 as [|l links [Hf Ht] Hv IH]; [unfold count_edges; simpl; lia|].
  rewrite count_edges_cons. case_decide as Hk; [|rewrite N.add_0_l; done].
  destruct Hk as [<- <-]. done.
Qed.

Lemma count_cell_default lc i j :
  count_cell lc i j = Z.of_N (default 0 (lc !! (i, j))).
Proof. done. Qed.

Lemma fold_bump_default links i j :
  default 0 (fold_left bump links ∅ !! (i, j)) = count_edges i j links.
Proof.
  rewrite fold_bump_lookup, lookup_empty.
  by destruct (N.eqb_spec (count_edges i j links) 0) as [->|].
Qed.

(** ** Triplets, compression and the dense rows *)

Lemma add_counts_in_shape (n : N) (entries : list (N * N * N)) (d : list (N * N * float)) :
  Forall (fun e => fst (fst e) < n /\ snd (fst e) < n) entries ->
  add_counts (mkTriMat n n d) entries
  = Ok (mkTriMat n n (d ++ map (prod_map id usize_as_f64) entries)).
Proof.
  revert d. induction entries as [|[[from to] count] entries IH]; intros d Hv; simpl.
  - by rewrite app_nil_r.
  - apply Forall_cons in Hv as [[Hf Ht] Hv]. simpl in Hf, Ht.
    unfold add_triplet. simpl.
    destruct (N.ltb_spec from n); [|lia]. destruct (N.ltb_spec to n); [|lia]. simpl.
    rewrite IH by done. by rewrite <- app_assoc.
Qed.

(** Triplets with pairwise different positions are stored as they are. *)
Lemma fold_csr_insert_lookup (l : list (N * N * float)) (acc : gmap (N * N) float) k :
  NoDup (l.*1) ->
  (forall k', k' ∈ l.*1 -> acc !! k' = None) ->
  fold_left csr_insert l acc !! k
  = match (list_to_map l : gmap (N * N) float) !! k with
    | Some v => Some v
    | None => acc !! k
    end.
Proof.
  revert acc. induction l as [|[[r c] v] l IH]; intros acc Hnd Hacc; [done|].
  simpl in Hnd. apply NoDup_cons in Hnd as [Hk0 Hnd]. simpl.
  rewrite (Hacc (r, c)) by (simpl; left).
  rewrite IH; [|done|].
  - rewrite !lookup_insert. case_decide as Hk.
    + subst k. by rewrite (not_elem_of_list_to_map_1 _ _ Hk0).
    + done.
  - intros k' Hk'. rewrite lookup_insert_ne; [apply Hacc; simpl; by right|].
    intros <-. done.
Qed.

(** The compressed matrix does not depend on the order in which the hash
    map hands out its entries. *)
Lemma to_csr_any_order (n : N) (lc : gmap (N * N) N) (entries : list (N * N * N)) :
  entries ≡ₚ map_to_list lc ->
  to_csr (mkTriMat n n (map (prod_map id usize_as_f64) entries))
  = mkCsMat n n (usize_as_f64 <$> lc).
Proof.
  intros Hperm. unfold to_csr. simpl. f_equal. apply map_eq. intros k.
  change (map (prod_map id usize_as_f64) entries)
    with (prod_map id usize_as_f64 <$> entries).
  assert (NoDup (entries.*1)) as Hnd.
  { rewrite Hperm. apply NoDup_fst_map_to_list. }
  rewrite fold_csr_insert_lookup.
  - rewrite list_to_map_fmap, (list_to_map_proper _ _ Hnd Hperm).
    rewrite list_to_map_to_list, lookup_empty.
    by destruct ((usize_as_f64 <$> lc) !! k).
  - rewrite <- list_fmap_compose.
    replace ((fst ∘ prod_map id usize_as_f64) <$> entries) with (entries.*1); [done|].
    apply list_fmap_ext. by intros ? [].
  - intros. apply lookup_empty.
Qed.

Lemma to_csr_of_counts (n : N) (lc : gmap (N * N) N) :
  to_csr (mkTriMat n n (map (prod_map id usize_as_f64) (map_to_list lc)))
  = mkCsMat n n (usize_as_f64 <$> lc).
Proof. by apply to_csr_any_order. Qed.

(** What [build] returns for valid links: the counts, converted to [f64]. *)
Lemma build_valid (n : N) (links : list NoteLink) :
  N.of_nat (length links) < 2 ^ usize_bits ->
  Forall (valid_link n) links ->
  count_links usize_bits overflow_checks n links ∅ = Ok (fold_left bump links ∅)
  /\ build usize_bits overflow_checks n links = Ok (mkCsMat n n (usize_as_f64 <$> fold_left bump links ∅)).
Proof.
  intros Hlen Hv.
  assert (count_links usize_bits overflow_checks n links ∅ = Ok (fold_left bump links ∅)) as Hc.
  { apply (count_links_valid n links ∅ 0); [done | | lia].
    intros k c. by rewrite lookup_empty. }
  split; [done|]. unfold build. rewrite Hc. simpl.
  unfold TriMat_new. simpl. rewrite add_counts_in_shape.
  - simpl. by rewrite to_csr_of_counts.
  - apply Forall_forall. intros [[i j] c] Hin. simpl.
    apply elem_of_map_to_list in Hin. apply fold_bump_empty in Hin as [-> Hpos].
    by apply (count_edges_valid n links).
Qed.

Lemma fill_row_spec (data : gmap (N * N) float) (i : N) (js : list N) (vec : list float) :
  Forall (fun j => j < N.of_nat (length vec)) js ->
  exists vec',
    fill_row vec (omap (fun j => (fun v => (j, v)) <$> data !! (i, j)) js) = Ok vec'
    /\ length vec' = length vec
    /\ forall j, vec' !! N.to_nat j
         = match data !! (i, j) with
           | Some v => if decide (j ∈ js) then
                         (fun _ => v) <$> vec !! N.to_nat j
                       else vec !! N.to_nat j
           | None => vec !! N.to_nat j
           end.
Proof.
  revert vec. induction js as [|j0 js IH]; intros vec Hjs.
  - exists vec. split; [done|]. split; [done|]. intros j.
    destruct (data !! (i, j)); [|done]. rewrite decide_False; [done | apply not_elem_of_nil].
  - apply Forall_cons in Hjs as [Hj0 Hjs]. simpl.
    destruct (data !! (i, j0)) as [v0|] eqn:E0; simpl.
    + unfold fill_row. simpl. unfold set_index.
      destruct (N.ltb_spec j0 (N.of_nat (length vec))); [|lia].
      destruct (IH (<[N.to_nat j0 := v0]> vec)) as (vec' & Hfill & Hlen & Hlook).
      { by rewrite length_insert. }
      exists vec'. split; [exact Hfill|]. rewrite length_insert in Hlen. split; [done|].
      intros j. rewrite Hlook. destruct (decide (j = j0)) as [->|Hne].
      * rewrite E0. rewrite list_lookup_insert_eq by lia.
        rewrite (decide_True (P := j0 ∈ j0 :: js)) by left.
        destruct (lookup_lt_is_Some_2 vec (N.to_nat j0)) as [x Hx]; [lia|].
        rewrite Hx. simpl. by case_decide.
      * rewrite list_lookup_insert_ne by lia.
        destruct (data !! (i, j)); [|done].
        destruct (decide (j ∈ js)) as [Hin|Hnin].
        -- rewrite decide_True by (by right). done.
        -- rewrite decide_False; [done|]. intros [?|?]%elem_of_cons; done.
    + destruct (IH vec Hjs) as (vec' & Hfill & Hlen & Hlook).
      exists vec'. split; [exact Hfill|]. split; [done|].
      intros j. rewrite Hlook. destruct (data !! (i, j)) eqn:E; [|done].
      destruct (decide (j ∈ js)) as [Hin|Hnin].
      * rewrite decide_True by (by right). done.
      * rewrite decide_False; [done|]. intros [->|?]%elem_of_cons; [congruence | done].
Qed.

Lemma matrix_to_vectors_spec (n : N) (data : gmap (N * N) float) :
  exists vs,
    matrix_to_vectors n (mkCsMat n n data) = Ok vs
    /\ length vs = N.to_nat n
    /\ Forall (fun v => length v = N.to_nat n) vs
    /\ forall i j, i < n -> j < n ->
         cell vs i j = Some (default 0%float (data !! (i, j))).
Proof.
  unfold matrix_to_vectors.
  destruct (collect_Forall2
    (fun i => match outer_view (mkCsMat n n data) i with
              | Some row => fill_row (replicate (N.to_nat n) 0%float) row
              | None => Panic
              end)
    (fun i vec => length vec = N.to_nat n
       /\ forall j, j < n -> vec !! N.to_nat j = Some (default 0%float (data !! (i, j))))
    (range n)) as (vs & Hvs & HF).
  { intros i Hi%elem_of_range. unfold outer_view. simpl.
    destruct (N.ltb_spec i n); [|lia].
    destruct (fill_row_spec data i (range n) (replicate (N.to_nat n) 0%float))
      as (vec & Hfill & Hlen & Hlook).
    { apply Forall_forall. intros j Hj%elem_of_range. rewrite length_replicate. lia. }
    exists vec. split; [exact Hfill|]. rewrite length_replicate in Hlen. split; [done|].
    intros j Hj. rewrite Hlook.
    rewrite lookup_replicate_2 by lia.
    destruct (data !! (i, j)); [|done].
    rewrite decide_True by (by apply elem_of_range). done. }
  exists vs. split; [exact Hvs|].
  pose proof (Forall2_length _ _ _ HF) as Hlen. rewrite range_length in Hlen.
  split; [done|]. split.
  - apply Forall_forall. intros v Hv.
    apply list_elem_of_lookup in Hv as [k Hk].
    destruct (Forall2_lookup_r _ _ _ _ _ HF Hk) as (i & _ & [Hl _]). done.
  - intros i j Hi Hj. unfold cell.
    destruct (Forall2_lookup_l _ _ _ _ _ HF (range_lookup n i Hi)) as (vec & Hvec & [_ Hcell]).
    rewrite Hvec. simpl. by apply Hcell.
Qed.

(** The dense rows for valid links: a square of [f64] counts. *)
Lemma build_adjacency_matrix_valid (n : N) (links : list NoteLink) :
  N.of_nat (length links) < 2 ^ usize_bits ->
  Forall (valid_link n) links ->
  exists vs,
    build_adjacency_matrix usize_bits overflow_checks n links = Ok vs
    /\ length vs = N.to_nat n
    /\ Forall (fun v => length v = N.to_nat n) vs
    /\ forall i j, i < n -> j < n ->
         cell vs i j = Some (usize_as_f64 (count_edges i j links)).
Proof.
  intros Hlen Hv. destruct (build_valid n links Hlen Hv) as [_ Hb].
  destruct (matrix_to_vectors_spec n (usize_as_f64 <$> fold_left bump links ∅))
    as (vs & Hvs & Hl & Hrows & Hcell).
  exists vs. unfold build_adjacency_matrix. rewrite Hb. simpl.
  split; [exact Hvs|]. split; [done|]. split; [done|].
  intros i j Hi Hj. rewrite (Hcell i j Hi Hj). f_equal.
  rewrite lookup_fmap, fold_bump_lookup, lookup_empty.
  by destruct (N.eqb_spec (count_edges i j links) 0) as [->|].
Qed.

(** C1. For every node count [n] and every list of links whose indices all
    lie in [0, n), [build] followed by [matrix_to_vectors] returns [n]
    vectors of length [n] whose entry [(i, j)] is the number of links from
    [i] to [j] (as an [f64]): repeated pairs add up, and a self-link [(i, i)]
    is counted in cell [(i, i)]. For three notes with the links 0->1, 0->2
    and 1->2 the rows are [0,1,1], [0,0,1], [0,0,0]. The list of links is a
    [Vec], so its length is below the modulus of [usize]. *)
Theorem build_counts_links (n : N) (links : list NoteLink) :
  N.of_nat (length links) < 2 ^ usize_bits ->
  Forall (valid_link n) links ->
  (exists vs,
    build_adjacency_matrix usize_bits overflow_checks n links = Ok vs
    /\ length vs = N.to_nat n
    /\ Forall (fun v => length v = N.to_nat n) vs
    /\ forall i j, i < n -> j < n ->
         cell vs i j = Some (usize_as_f64 (count_edges i j links)))
  /\ (2 <= usize_bits ->
      build_adjacency_matrix usize_bits overflow_checks 3 basic_links
      = Ok [[0; 1; 1]; [0; 0; 1]; [0; 0; 0]]%float).
Proof.
  intros Hlen Hv. split; [by apply build_adjacency_matrix_valid|].
  intros Hbits.
  destruct (build_adjacency_matrix_valid 3 basic_links) as (vs & -> & Hl & Hrows & Hcell).
  { simpl. apply N.lt_le_trans with (2 ^ 2); [done|]. by apply N.pow_le_mono_r. }
  { repeat constructor. }
  f_equal.
  destruct vs as [|r0 [|r1 [|r2 [|]]]]; try discriminate Hl.
  apply Forall_cons in Hrows as [H0 Hrows].
  apply Forall_cons in Hrows as [H1 Hrows].
  apply Forall_cons in Hrows as [H2 _].
  destruct r0 as [|a0 [|a1 [|a2 [|]]]]; try discriminate H0.
  destruct r1 as [|b0 [|b1 [|b2 [|]]]]; try discriminate H1.
  destruct r2 as [|c0 [|c1 [|c2 [|]]]]; try discriminate H2.
  pose proof (Hcell 0 0 eq_refl eq_refl) as E00. pose proof (Hcell 0 1 eq_refl eq_refl) as E01.
  pose proof (Hcell 0 2 eq_refl eq_refl) as E02. pose proof (Hcell 1 0 eq_refl eq_refl) as E10.
  pose proof (Hcell 1 1 eq_refl eq_refl) as E11. pose proof (Hcell 1 2 eq_refl eq_refl) as E12.
  pose proof (Hcell 2 0 eq_refl eq_refl) as E20. pose proof (Hcell 2 1 eq_refl eq_refl) as E21.
  pose proof (Hcell 2 2 eq_refl eq_refl) as E22.
  vm_compute in E00, E01, E02, E10, E11, E12, E20, E21, E22.
  congruence.
Qed.

(** ** Links outside the range *)

Lemma count_links_app (n : N) (pre rest : list NoteLink) (lc : gmap (N * N) N) :
  count_links usize_bits overflow_checks n (pre ++ rest) lc
  = lc' ← count_links usize_bits overflow_checks n pre lc;
    count_links usize_bits overflow_checks n rest lc'.
Proof.
  revert lc. induction pre as [|l pre IH]; intros lc; [done|]. simpl.
  destruct ((n <=? from_id l) || (n <=? to_id l)).
  - by destruct (usize_sub usize_bits overflow_checks n 1).
  - destruct (usize_add usize_bits overflow_checks _ 1); simpl; [apply IH | done | done].
Qed.

(** With at least one note, the first link outside the range ends [build]
    with [InvalidLinkIndex] carrying that link and [max = num_notes - 1];
    nothing of the matrix is returned. *)
Lemma build_rejects_invalid_link (n : N) (pre post : list NoteLink) (bad : NoteLink) :
  1 <= n ->
  N.of_nat (length (pre ++ bad :: post)) < 2 ^ usize_bits ->
  Forall (valid_link n) pre ->
  ~ valid_link n bad ->
  build usize_bits overflow_checks n (pre ++ bad :: post)
  = Err (InvalidLinkIndex (from_id bad) (to_id bad) (n - 1)).
Proof.
  intros Hn Hlen Hpre Hbad. unfold build.
  rewrite count_links_app.
  rewrite (count_links_valid n pre ∅ 0); [|done| |].
  - simpl. unfold valid_link in Hbad.
    destruct (N.leb_spec n (from_id bad)), (N.leb_spec n (to_id bad)); simpl;
      try (exfalso; apply Hbad; lia);
      unfold usize_sub; destruct (N.leb_spec 1 n); try lia; done.
  - intros k c. by rewrite lookup_empty.
  - rewrite length_app in Hlen. simpl in Hlen. lia.
Qed.

(** C2, at its failing input. With no notes at all, [num_notes - 1]
    underflows: whatever the first link is, [build] panics when overflow
    checks are on, and otherwise reports [max] as the largest [usize], not
    [n - 1]. *)
Theorem build_zero_notes_underflow (link : NoteLink) (rest : list NoteLink) :
  build usize_bits overflow_checks 0 (link :: rest)
  = if overflow_checks then Panic
    else Err (InvalidLinkIndex (from_id link) (to_id link) (2 ^ usize_bits - 1)).
Proof.
  unfold build. simpl. unfold usize_sub, usize_modulus. simpl.
  replace (0 <=? from_id link) with true by (symmetry; apply N.leb_le; lia). simpl.
  destruct overflow_checks; [done|]. simpl. do 2 f_equal.
  assert (0 < 2 ^ usize_bits) by (apply N.neq_0_lt_0, N.pow_nonzero; lia).
  rewrite N.add_0_r. apply N.mod_small. lia.
Qed.

End Build.

Example build_zero_notes_wasm32 :
  build 32 true 0 [mkNoteLink 0 0] = Panic
  /\ build 32 false 0 [mkNoteLink 0 0] = Err (InvalidLinkIndex 0 0 4294967295).
Proof. split; reflexivity. Qed.

(** [test_adjacency_matrix_self_links], and a link that occurs twice. *)
Example build_self_link :
  build_adjacency_matrix 32 false 1 [mkNoteLink 0 0] = Ok [[1]]%float.
Proof. reflexivity. Qed.

Example build_repeated_link :
  build_adjacency_matrix 32 false 2 [mkNoteLink 0 1; mkNoteLink 0 1]
  = Ok [[0; 2]; [0; 0]]%float.
Proof. reflexivity. Qed.

Lemma build_counts_links_witness :
  (exists vs,
    build_adjacency_matrix 32 false 3 basic_links = Ok vs
    /\ length vs = N.to_nat 3
    /\ Forall (fun v => length v = N.to_nat 3) vs
    /\ forall i j, i < 3 -> j < 3 ->
         cell vs i j = Some (usize_as_f64 (count_edges i j basic_links)))
  /\ (2 <= 32 ->
      build_adjacency_matrix 32 false 3 basic_links
      = Ok [[0; 1; 1]; [0; 0; 1]; [0; 0; 0]]%float).
Proof.
  apply (build_counts_links 32 false 3 basic_links).
  - reflexivity.
  - unfold basic_links, valid_link. repeat constructor.
Defined.

(** ** The Laplacian of the counted links *)

(** Over the columns of a valid graph, the counts of row [i] add up to the
    number of links that leave [i]. *)
Lemma sum_count_edges (n i : N) (links : list NoteLink) :
  Forall (valid_link n) links ->
  sumZ (map (fun j => Z.of_N (count_edges i j links)) (range n))
  = Z.of_N (out_degree i links).
Proof.
  induction 1 as [|l links [Hf Ht] Hv IH].
  - unfold count_edges, out_degree. simpl. by apply sumZ_map_zero.
  - rewrite out_degree_cons, N2Z.inj_add, <- IH.
    rewrite <- (sumZ_indicator (to_id l) (Z.of_N (if decide (from_id l = i) then 1 else 0))
                  (range n) (range_NoDup n)) by (by apply elem_of_range).
    rewrite <- sumZ_map_add. f_equal. apply map_ext. intros j.
    rewrite count_edges_cons, N2Z.inj_add. f_equal.
    destruct (N.eqb_spec (to_id l) j) as [<-|Hne].
    + destruct (decide (from_id l = i)).
      * by rewrite decide_True.
      * rewrite decide_False; [done | by intros []].
    + rewrite decide_False; [done | by intros []].
Qed.

(** A row of [D - A] sums to the diagonal entry minus the row sum of [A]. *)
Lemma laplacian_row_sum (n i : N) (lc : gmap (N * N) N) :
  i < n -> sumZ (map (toLaplacian n lc i) (range n)) = 0%Z.
Proof.
  intros Hi. unfold toLaplacian. rewrite sumZ_map_sub.
  unfold degree_diagonal. rewrite sumZ_indicator; [|apply range_NoDup | by apply elem_of_range].
  unfold adjacency_row. lia.
Qed.

(** C3. For the adjacency matrix of a valid build (the counts [lc] that
    [build] converts to [f64] cells), the derived Laplacian is [D - A] with
    [D] diagonal and [D[i][i]] the out-degree of node [i]; every row of the
    Laplacian sums to exactly 0, and row [i] of the adjacency matrix sums to
    the out-degree of node [i]. For the three links 0->1, 0->2, 1->2 the
    Laplacian is [[2,-1,-1],[0,1,-1],[0,0,0]]. *)
Theorem laplacian_rows_sum_to_zero (usize_bits : N) (overflow_checks : bool)
    (n : N) (links : list NoteLink) :
  N.of_nat (length links) < 2 ^ usize_bits ->
  Forall (valid_link n) links ->
  (exists lc : gmap (N * N) N,
    count_links usize_bits overflow_checks n links ∅ = Ok lc
    /\ build usize_bits overflow_checks n links = Ok (mkCsMat n n (usize_as_f64 <$> lc))
    /\ (forall i j, count_cell lc i j = Z.of_N (count_edges i j links))
    /\ (forall i j, i < n -> j < n ->
          toLaplacian n lc i j
          = ((if (i =? j)%N then Z.of_N (out_degree i links) else 0)
             - Z.of_N (count_edges i j links))%Z)
    /\ (forall i, i < n -> sumZ (adjacency_row n lc i) = Z.of_N (out_degree i links))
    /\ length (laplacian_rows n lc) = N.to_nat n
    /\ (forall row, row ∈ laplacian_rows n lc -> length row = N.to_nat n /\ sumZ row = 0%Z))
  /\ (2 <= usize_bits ->
      forall lc, count_links usize_bits overflow_checks 3 basic_links ∅ = Ok lc ->
      laplacian_rows 3 lc = [[2; -1; -1]; [0; 1; -1]; [0; 0; 0]]%Z).
Proof.
  intros Hlen Hv. split.
  2:{ intros Hbits lc.
      destruct (build_valid usize_bits overflow_checks 3 basic_links) as [-> _].
      - simpl. apply N.lt_le_trans with (2 ^ 2); [done|]. by apply N.pow_le_mono_r.
      - unfold basic_links, valid_link. repeat constructor.
      - intros [= <-]. vm_compute. reflexivity. }
  destruct (build_valid usize_bits overflow_checks n links Hlen Hv) as [Hc Hb].
  exists (fold_left bump links ∅).
  assert (forall i j, count_cell (fold_left bump links ∅) i j = Z.of_N (count_edges i j links)) as Hcell.
  { intros i j. unfold count_cell. by rewrite fold_bump_default. }
  assert (forall i, i < n ->
    sumZ (adjacency_row n (fold_left bump links ∅) i) = Z.of_N (out_degree i links)) as Hrow.
  { intros i Hi. unfold adjacency_row. rewrite <- (sum_count_edges n i links Hv).
    f_equal. apply map_ext. intros j. apply Hcell. }
  split; [done|]. split; [done|]. split; [done|]. split.
  { intros i j Hi Hj. unfold toLaplacian, degree_diagonal. rewrite Hcell.
    destruct (i =? j); [by rewrite Hrow | done]. }
  split; [done|]. split.
  { unfold laplacian_rows. by rewrite length_map, range_length. }
  intros row Hin. unfold laplacian_rows in Hin.
  apply list_elem_of_fmap in Hin as (i & -> & Hi%elem_of_range).
  split; [by rewrite length_map, range_length | by apply laplacian_row_sum].
Qed.

Lemma laplacian_rows_sum_to_zero_witness :
  (exists lc : gmap (N * N) N,
    count_links 32 false 3 basic_links ∅ = Ok lc
    /\ build 32 false 3 basic_links = Ok (mkCsMat 3 3 (usize_as_f64 <$> lc))
    /\ (forall i j, count_cell lc i j = Z.of_N (count_edges i j basic_links))
    /\ (forall i j, i < 3 -> j < 3 ->
          toLaplacian 3 lc i j
          = ((if (i =? j)%N then Z.of_N (out_degree i basic_links) else 0)
             - Z.of_N (count_edges i j basic_links))%Z)
    /\ (forall i, i < 3 -> sumZ (adjacency_row 3 lc i) = Z.of_N (out_degree i basic_links))
    /\ length (laplacian_rows 3 lc) = N.to_nat 3
    /\ (forall row, row ∈ laplacian_rows 3 lc -> length row = N.to_nat 3 /\ sumZ row = 0%Z))
  /\ (2 <= 32 ->
      forall lc, count_links 32 false 3 basic_links ∅ = Ok lc ->
      laplacian_rows 3 lc = [[2; -1; -1]; [0; 1; -1]; [0; 0; 0]]%Z).
Proof.
  apply (laplacian_rows_sum_to_zero 32 false 3 basic_links).
  - reflexivity.
  - unfold basic_links, valid_link. repeat constructor.
Defined.


(** ** The requirements of [reduce] *)

(** C5. [reduce] fails with [InsufficientData {required: 1, provided}] when
    there is no vector ([provided = n]) or the vectors have no component
    ([provided = d]), and with [InvalidVectorDimensions {expected: min(n,d),
    got: k}] when [k > min(n, d)]; it returns vectors only when all three
    requirements hold, so no width is reached by truncating or padding. *)
Theorem reduce_requirements (center_decompose_project : list (list float) -> N -> list (list float))
    (vectors : list (list float)) (k : N) :
  let n := N.of_nat (length vectors) in
  let d := N.of_nat (length (hd [] vectors)) in
  (n < 1 -> reduce center_decompose_project vectors k = Err (InsufficientData 1 n))
  /\ (1 <= n -> d < 1 ->
      reduce center_decompose_project vectors k = Err (InsufficientData 1 d))
  /\ (1 <= n -> 1 <= d -> N.min n d < k ->
      exists vector_index,
        reduce center_decompose_project vectors k
        = Err (InvalidVectorDimensions (N.min n d) k vector_index))
  /\ (forall reduced,
      reduce center_decompose_project vectors k = Ok reduced ->
      1 <= n /\ 1 <= d /\ k <= N.min n d
      /\ reduced = center_decompose_project vectors k).
Proof.
  intros n d. subst n d. destruct vectors as [|first rest]; simpl hd.
  - split; [done|]. split; [simpl; lia|]. split; [simpl; lia|]. done.
  - unfold reduce.
    destruct (N.ltb_spec (N.of_nat (length first)) 1) as [Hd|Hd].
    + split; [simpl length; lia|]. split; [done|]. split; [lia|]. done.
    + destruct (N.ltb_spec (N.min (N.of_nat (length (first :: rest))) (N.of_nat (length first))) k)
        as [Hk|Hk].
      * split; [simpl length; lia|]. split; [lia|]. split; [by exists 0 | done].
      * split; [simpl length; lia|]. split; [lia|]. split; [lia|].
        intros reduced [= <-]. split; [simpl length; lia|]. done.
Qed.

(** ** [normalize_vectors] *)

Lemma collect_normalize (vectors : list (list float)) :
  collect normalize_one vectors
  = if existsb zero_norm vectors then Err ZeroNormVector
    else Ok (map divide_by_norm vectors).
Proof.
  induction vectors as [|vec vectors IH]; [done|].
  cbn [collect existsb map]. rewrite IH.
  unfold normalize_one. fold (zero_norm vec). fold (divide_by_norm vec).
  destruct (zero_norm vec); [done|].
  by destruct (existsb zero_norm vectors).
Qed.

(** C7, as the code has it. [normalize_vectors] divides each vector by its
    Euclidean norm ([[3,4]] becomes [[0.6,0.8]], an all-zero vector fails
    with [ZeroNormVector]); when the norm of any vector of the batch is below
    1e-10 the whole call fails with [ZeroNormVector], which names no vector
    and carries no result for the others; otherwise every vector is returned
    divided by its norm. *)
Theorem normalize_vectors_whole_batch (vectors : list (list float)) :
  normalize_vectors vectors
  = (if existsb zero_norm vectors then Err ZeroNormVector
     else Ok (map divide_by_norm vectors))
  /\ normalize_vectors [[3; 4]]%float = Ok [[0.6; 0.8]]%float
  /\ normalize_vectors [[0; 0; 0]]%float = Err ZeroNormVector.
Proof.
  split; [apply collect_normalize|]. split; reflexivity.
Qed.

(** C7 as stated fails twice. A batch with one zero vector fails as a whole:
    the result is the bare error, so the unit vector of [[3,4]] is not
    delivered and the offending vector is not identified. And a vector whose
    squares overflow has an infinite norm, passes the test and comes back as
    the zero vector. *)
Lemma normalize_vectors_batch_fails_and_zero_returned :
  normalize_vectors [[3; 4]; [0; 0]]%float = Err ZeroNormVector
  /\ normalize_vectors [[1e200; 1e200]]%float = Ok [[0; 0]]%float.
Proof. split; reflexivity. Qed.

(** ** The "Categorical" colour scheme *)

Lemma categorical_rem (index : Z) :
  (0 <= index)%Z ->
  Z.rem (index + 8) (Z.of_nat (length palette)) = Z.rem index (Z.of_nat (length palette)).
Proof.
  intros H. simpl. rewrite !Z.rem_mod_nonneg by lia.
  replace (index + 8)%Z with (index + 1 * 8)%Z by lia. apply Z_mod_plus_full.
Qed.

(** C10. The "Categorical" scheme has period 8 in the cluster index and does
    not look at the number of clusters: [getColor(i, t) = getColor(i + 8, t)]
    for every cluster index [i] (a non-negative integer) and every [t], so
    with more than 8 clusters two different clusters get the same colour. *)
Theorem categorical_period_8 (index total : Z) :
  (0 <= index)%Z ->
  categorical_getColor index total = categorical_getColor (index + 8) total
  /\ (forall total', categorical_getColor index total' = categorical_getColor index total)
  /\ ((8 < total)%Z ->
      exists i j, (0 <= i < total)%Z /\ (0 <= j < total)%Z /\ i <> j
        /\ categorical_getColor i total = categorical_getColor j total).
Proof.
  intros H. split; [|split].
  - unfold categorical_getColor. by rewrite categorical_rem.
  - done.
  - intros Ht. exists 0%Z, 8%Z. repeat split; try lia. 
Qed.

Lemma categorical_period_8_witness :
  categorical_getColor 3 10 = categorical_getColor (3 + 8) 10
  /\ (forall total', categorical_getColor 3 total' = categorical_getColor 3 10)
  /\ ((8 < 10)%Z ->
      exists i j, (0 <= i < 10)%Z /\ (0 <= j < 10)%Z /\ i <> j
        /\ categorical_getColor i 10 = categorical_getColor j 10).
Proof. apply (categorical_period_8 3 10). lia. Defined.

(** A negative index is outside the palette under JavaScript's remainder. *)
Example categorical_negative_index :
  categorical_getColor (-1) 8 = ColorDefault
  /\ categorical_getColor 7 8 = ColorHex 0x54a0ff.
Proof. split; reflexivity. Qed.

(** ** The cluster count of [fetchVectors] *)





(** * Further properties of the code *)

(** ** [build]: when it returns a matrix, and what the matrix stores *)

Section BuildEdges.
Variable usize_bits : N.
Variable overflow_checks : bool.

Lemma first_invalid_link (n : N) (links : list NoteLink) :
  ~ Forall (valid_link n) links ->
  exists pre bad post,
    links = pre ++ bad :: post /\ Forall (valid_link n) pre /\ ~ valid_link n bad.
Proof.
  induction links as [|l links IH]; intros Hnot.
  - exfalso. apply Hnot. constructor.
  - destruct (decide (from_id l < n /\ to_id l < n)) as [Hl|Hl].
    + destruct IH as (pre & bad & post & -> & Hpre & Hbad).
      { intros HF. apply Hnot. by constructor. }
      exists (l :: pre), bad, post. split; [done|]. split; [by constructor | done].
    + exists [], l, links. split; [done|]. split; [constructor | done].
Qed.

(** The counting loop gives no map once it meets a link outside the range. *)
Lemma count_links_invalid_not_ok (n : N) (pre post : list NoteLink) (bad : NoteLink)
    (lc : gmap (N * N) N) :
  N.of_nat (length (pre ++ bad :: post)) < 2 ^ usize_bits ->
  Forall (valid_link n) pre ->
  ~ valid_link n bad ->
  count_links usize_bits overflow_checks n (pre ++ bad :: post) ∅ <> Ok lc.
Proof.
  intros Hlen Hpre Hbad. rewrite count_links_app.
  rewrite (count_links_valid usize_bits overflow_checks n pre ∅ 0); [|done| |].
  - simpl. unfold valid_link in Hbad.
    destruct (N.leb_spec n (from_id bad)), (N.leb_spec n (to_id bad)); simpl;
      try (exfalso; apply Hbad; lia);
      by destruct (usize_sub usize_bits overflow_checks n 1).
  - intros k c. by rewrite lookup_empty.
  - rewrite length_app in Hlen. simpl in Hlen. lia.
Qed.

(** X1. [build] returns a matrix exactly when every link lies in the range;
    with at least one note, the error for a list with a link outside the
    range is [InvalidLinkIndex] of the first such link with [max = n - 1],
    whatever follows it. *)
Theorem build_ok_iff_links_valid (n : N) (links : list NoteLink) :
  N.of_nat (length links) < 2 ^ usize_bits ->
  ((exists m, build usize_bits overflow_checks n links = Ok m)
   <-> Forall (valid_link n) links)
  /\ (forall pre bad post,
        1 <= n -> links = pre ++ bad :: post ->
        Forall (valid_link n) pre -> ~ valid_link n bad ->
        build usize_bits overflow_checks n links
        = Err (InvalidLinkIndex (from_id bad) (to_id bad) (n - 1))).
Proof.
  intros Hlen. split; [split|].
  - intros [m Hm].
    assert (forall l, Decision (valid_link n l)) as Hdec.
    { intros l. unfold valid_link. apply _. }
    destruct (Forall_dec (valid_link n) links) as [HF|HF]; [done|].
    exfalso. destruct (first_invalid_link n links HF) as (pre & bad & post & -> & Hpre & Hbad).
    unfold build in Hm.
    destruct (count_links usize_bits overflow_checks n (pre ++ bad :: post) ∅) as [lc| |] eqn:E;
      simpl in Hm; try discriminate.
    by apply (count_links_invalid_not_ok n pre post bad lc) in E.
  - intros HF. destruct (build_valid usize_bits overflow_checks n links Hlen HF) as [_ Hb].
    eauto.
  - intros pre bad post Hn -> Hpre Hbad.
    by apply build_rejects_invalid_link.
Qed.

Lemma size_fold_bump (links : list NoteLink) (lc : gmap (N * N) N) :
  (size (fold_left bump links lc) <= size lc + length links)%nat.
Proof.
  revert lc. induction links as [|l links IH]; intros lc; simpl; [lia|].
  etrans; [apply IH|]. unfold bump. rewrite map_size_insert.
  destruct (lc !! (from_id l, to_id l)); simpl; lia.
Qed.

(** X2. The matrix that [build] returns for valid links has the shape
    [n x n] and stores exactly the pairs that occur among the links, each
    with its number of occurrences: no cell for a pair that does not occur,
    and no more cells than links. *)
Theorem build_stores_occurring_pairs (n : N) (links : list NoteLink) :
  N.of_nat (length links) < 2 ^ usize_bits ->
  Forall (valid_link n) links ->
  exists m,
    build usize_bits overflow_checks n links = Ok m
    /\ cs_rows m = n /\ cs_cols m = n
    /\ (forall i j,
          cs_data m !! (i, j)
          = if count_edges i j links =? 0 then None
            else Some (usize_as_f64 (count_edges i j links)))
    /\ (size (cs_data m) <= length links)%nat.
Proof.
  intros Hlen HF. destruct (build_valid usize_bits overflow_checks n links Hlen HF) as [_ Hb].
  eexists. split; [exact Hb|]. simpl. split; [done|]. split; [done|]. split.
  - intros i j. rewrite lookup_fmap, fold_bump_lookup, lookup_empty.
    by destruct (count_edges i j links =? 0).
  - rewrite map_size_fmap. etrans; [apply size_fold_bump|].
    rewrite map_size_empty. lia.
Qed.

(** X3. The matrix does not depend on the order in which the hash map of
    counts is iterated: the second loop of [build] over any ordering of the
    entries, followed by [to_csr], gives the matrix that [build] returns. *)
Theorem build_any_iteration_order (n : N) (links : list NoteLink) :
  N.of_nat (length links) < 2 ^ usize_bits ->
  Forall (valid_link n) links ->
  exists link_counts,
    count_links usize_bits overflow_checks n links ∅ = Ok link_counts
    /\ forall entries,
         entries ≡ₚ map_to_list link_counts ->
         (triplets ← add_counts (TriMat_new (n, n)) entries; Ok (to_csr triplets))
         = build usize_bits overflow_checks n links.
Proof.
  intros Hlen HF. destruct (build_valid usize_bits overflow_checks n links Hlen HF) as [Hc Hb].
  eexists. split; [exact Hc|]. intros entries Hperm. rewrite Hb.
  unfold TriMat_new. simpl. rewrite add_counts_in_shape.
  - simpl. by rewrite (to_csr_any_order n _ entries Hperm).
  - rewrite Hperm. apply Forall_forall. intros [[i j] c] Hin. simpl.
    apply elem_of_map_to_list in Hin. apply fold_bump_empty in Hin as [-> Hpos].
    by apply (count_edges_valid n links).
Qed.

End BuildEdges.

Lemma build_ok_iff_links_valid_witness :
  ((exists m, build 32 false 3 basic_links = Ok m) <-> Forall (valid_link 3) basic_links)
  /\ (forall pre bad post,
        1 <= 3 -> basic_links = pre ++ bad :: post ->
        Forall (valid_link 3) pre -> ~ valid_link 3 bad ->
        build 32 false 3 basic_links
        = Err (InvalidLinkIndex (from_id bad) (to_id bad) (3 - 1))).
Proof.
  apply (build_ok_iff_links_valid 32 false 3 basic_links). reflexivity.
Defined.

Lemma build_stores_occurring_pairs_witness :
  exists m,
    build 32 false 3 basic_links = Ok m
    /\ cs_rows m = 3 /\ cs_cols m = 3
    /\ (forall i j,
          cs_data m !! (i, j)
          = if count_edges i j basic_links =? 0 then None
            else Some (usize_as_f64 (count_edges i j basic_links)))
    /\ (size (cs_data m) <= length basic_links)%nat.
Proof.
  apply (build_stores_occurring_pairs 32 false 3 basic_links).
  - reflexivity.
  - unfold basic_links, valid_link. repeat constructor.
Defined.

Lemma build_any_iteration_order_witness :
  exists link_counts,
    count_links 32 false 3 basic_links ∅ = Ok link_counts
    /\ forall entries,
         entries ≡ₚ map_to_list link_counts ->
         (triplets ← add_counts (TriMat_new (3, 3)) entries; Ok (to_csr triplets))
         = build 32 false 3 basic_links.
Proof.
  apply (build_any_iteration_order 32 false 3 basic_links).
  - reflexivity.
  - unfold basic_links, valid_link. repeat constructor.
Defined.

(** ** [matrix_to_vectors] on a matrix of any shape *)

Lemma fill_row_from_panic (row : list (N * float)) :
  fold_left (fun acc cv => v ← acc; set_index v (fst cv) (snd cv)) row Panic = Panic.
Proof. by induction row. Qed.

Lemma fill_row_not_err (row : list (N * float)) (vec : list float) (e : PluginError) :
  fill_row vec row <> Err e.
Proof.
  unfold fill_row. revert vec. induction row as [|[c v] row IH]; intros vec; [done|].
  simpl. unfold set_index. destruct (c <? N.of_nat (length vec)).
  - apply IH.
  - by rewrite fill_row_from_panic.
Qed.

Lemma fill_row_out_of_bounds (row : list (N * float)) (vec : list float) (c : N) (v : float) :
  (c, v) ∈ row -> N.of_nat (length vec) <= c -> fill_row vec row = Panic.
Proof.
  unfold fill_row. revert vec. induction row as [|[c0 v0] row IH]; intros vec Hin Hc.
  - by apply elem_of_nil in Hin.
  - simpl. unfold set_index. destruct (N.ltb_spec c0 (N.of_nat (length vec))) as [Hlt|Hge].
    + apply elem_of_cons in Hin as [[= -> ->]|Hin]; [lia|].
      apply IH; [done | by rewrite length_insert].
    + apply fill_row_from_panic.
Qed.

Lemma collect_panic {A B : Type} (f : A -> outcome B) (l : list A) (a : A) :
  (forall x e, x ∈ l -> f x <> Err e) -> a ∈ l -> f a = Panic -> collect f l = Panic.
Proof.
  induction l as [|x l IH]; intros Hne Hin Ha.
  - by apply elem_of_nil in Hin.
  - simpl. destruct (f x) as [b|e|] eqn:Ex; simpl.
    + apply elem_of_cons in Hin as [->|Hin]; [congruence|].
      rewrite IH; [done | intros; apply Hne; by right | done | done].
    + exfalso. apply (Hne x e); [left | done].
    + done.
Qed.

(** [matrix_to_vectors] on a compressed-row matrix of any shape. *)
Lemma matrix_to_vectors_csr (num_notes : N) (m : CsMat) :
  (cs_rows m < num_notes -> matrix_to_vectors num_notes m = Panic)
  /\ ((exists i j v, i < num_notes /\ num_notes <= j < cs_cols m
                     /\ cs_data m !! (i, j) = Some v) ->
      matrix_to_vectors num_notes m = Panic)
  /\ (num_notes <= cs_rows m -> cs_cols m <= num_notes ->
      exists vs,
        matrix_to_vectors num_notes m = Ok vs
        /\ length vs = N.to_nat num_notes
        /\ Forall (fun v => length v = N.to_nat num_notes) vs
        /\ forall i j, i < num_notes -> j < num_notes ->
             cell vs i j
             = Some (if decide (j < cs_cols m)
                     then default 0%float (cs_data m !! (i, j)) else 0%float))
  /\ (forall e, matrix_to_vectors num_notes m <> Err e).
Proof.
  assert (forall x e, x ∈ range num_notes ->
    match outer_view m x with
    | Some row => fill_row (replicate (N.to_nat num_notes) 0%float) row
    | None => Panic
    end <> Err e) as Hne.
  { intros x e _. destruct (outer_view m x); [apply fill_row_not_err | done]. }
  split; [|split; [|split]].
  - intros Hrows. unfold matrix_to_vectors.
    apply (collect_panic _ _ (cs_rows m)); [done | by apply elem_of_range |].
    unfold outer_view. by rewrite N.ltb_irrefl.
  - intros (i & j & v & Hi & [Hj1 Hj2] & Hv). unfold matrix_to_vectors.
    apply (collect_panic _ _ i); [done | by apply elem_of_range |].
    unfold outer_view. destruct (i <? cs_rows m); [|done].
    apply (fill_row_out_of_bounds _ _ j v).
    + apply list_elem_of_omap. exists j. split; [by apply elem_of_range|].
      by rewrite Hv.
    + rewrite length_replicate. lia.
  - intros Hrows Hcols. unfold matrix_to_vectors.
    destruct (collect_Forall2
      (fun i => match outer_view m i with
                | Some row => fill_row (replicate (N.to_nat num_notes) 0%float) row
                | None => Panic
                end)
      (fun i vec => length vec = N.to_nat num_notes
         /\ forall j, j < num_notes ->
              vec !! N.to_nat j
              = Some (if decide (j < cs_cols m)
                      then default 0%float (cs_data m !! (i, j)) else 0%float))
      (range num_notes)) as (vs & Hvs & HF).
    { intros i Hi%elem_of_range. unfold outer_view.
      destruct (N.ltb_spec i (cs_rows m)); [|lia].
      destruct (fill_row_spec (cs_data m) i (range (cs_cols m))
                  (replicate (N.to_nat num_notes) 0%float))
        as (vec & Hfill & Hlen & Hlook).
      { apply Forall_forall. intros j Hj%elem_of_range. rewrite length_replicate. lia. }
      exists vec. split; [exact Hfill|]. rewrite length_replicate in Hlen. split; [done|].
      intros j Hj. rewrite Hlook, lookup_replicate_2 by lia.
      destruct (decide (j < cs_cols m)) as [Hc|Hc].
      - destruct (cs_data m !! (i, j)); [|done].
        by rewrite decide_True by (by apply elem_of_range).
      - destruct (cs_data m !! (i, j)); [|done].
        by rewrite decide_False by (by rewrite elem_of_range). }
    exists vs. split; [exact Hvs|].
    pose proof (Forall2_length _ _ _ HF) as Hlen. rewrite range_length in Hlen.
    split; [done|]. split.
    + apply Forall_forall. intros v Hv.
      apply list_elem_of_lookup in Hv as [k Hk].
      destruct (Forall2_lookup_r _ _ _ _ _ HF Hk) as (i & _ & [Hl _]). done.
    + intros i j Hi Hj. unfold cell.
      destruct (Forall2_lookup_l _ _ _ _ _ HF (range_lookup num_notes i Hi))
        as (vec & Hvec & [_ Hcell]).
      rewrite Hvec. simpl. by apply Hcell.
  - intros e. unfold matrix_to_vectors.
    generalize (range num_notes) at 1 as l. intros l. revert e.
    induction l as [|x l IH]; intros e; [done|]. simpl.
    destruct (outer_view m x) as [row|]; [|done].
    pose proof (fill_row_not_err row (replicate (N.to_nat num_notes) 0%float)) as Hrow.
    destruct (fill_row (replicate (N.to_nat num_notes) 0%float) row) as [b|e'|]; simpl;
      [|by destruct (Hrow e') | done].
    specialize (IH e).
    destruct (collect _ l); simpl; [done | congruence | done].
Qed.

(** X4. [matrix_to_vectors] takes the matrix as an argument, so it can be
    given a compressed-row matrix that [to_csr] made for another shape. It
    panics when that matrix has fewer rows than the builder has notes
    ([outer_view(i).unwrap()]) and when one of the first [num_notes] rows
    stores a cell in a column from [num_notes] on (index out of bounds); for
    a matrix with at least [num_notes] rows and at most [num_notes] columns
    it returns [num_notes] vectors of length [num_notes] holding the stored
    cells and 0 elsewhere. It never returns an error value. *)
Theorem matrix_to_vectors_any_matrix (num_notes : N) (t : TriMat) :
  let m := to_csr t in
  (cs_rows m < num_notes -> matrix_to_vectors num_notes m = Panic)
  /\ ((exists i j v, i < num_notes /\ num_notes <= j < cs_cols m
                     /\ cs_data m !! (i, j) = Some v) ->
      matrix_to_vectors num_notes m = Panic)
  /\ (num_notes <= cs_rows m -> cs_cols m <= num_notes ->
      exists vs,
        matrix_to_vectors num_notes m = Ok vs
        /\ length vs = N.to_nat num_notes
        /\ Forall (fun v => length v = N.to_nat num_notes) vs
        /\ forall i j, i < num_notes -> j < num_notes ->
             cell vs i j
             = Some (if decide (j < cs_cols m)
                     then default 0%float (cs_data m !! (i, j)) else 0%float))
  /\ (forall e, matrix_to_vectors num_notes m <> Err e).
Proof.
  intros m.
  destruct (matrix_to_vectors_csr num_notes m) as (Hrows & Hcol & Hok & Hne).
  split; [exact Hrows|]. split; [exact Hcol|]. split; [exact Hok | exact Hne].
Qed.

(** ** [normalize_vectors]: shape, and the rows of a link graph *)

(** X5. When [normalize_vectors] succeeds it returns as many vectors as it
    received, each as long as the vector it comes from, and none of the
    inputs was empty: a batch that holds an empty vector fails. *)
Theorem normalize_vectors_keeps_shape (vectors out : list (list float)) :
  normalize_vectors vectors = Ok out ->
  length out = length vectors
  /\ Forall2 (fun vec unit => length unit = length vec /\ vec <> []) vectors out.
Proof.
  unfold normalize_vectors. rewrite collect_normalize.
  destruct (existsb zero_norm vectors) eqn:E; [done|]. intros [= <-].
  split; [by rewrite length_map|].
  induction vectors as [|vec vectors IH]; [constructor|].
  simpl in E. apply orb_false_elim in E as [Ev E].
  constructor; [|by apply IH].
  split; [unfold divide_by_norm; by rewrite length_map|].
  intros ->. by vm_compute in Ev.
Qed.

Lemma normalize_vectors_keeps_shape_witness :
  length [[0.6; 0.8]]%float = length [[3; 4]]%float
  /\ Forall2 (fun vec unit => length unit = length vec /\ vec <> [])
       [[3; 4]]%float [[0.6; 0.8]]%float.
Proof.
  apply (normalize_vectors_keeps_shape [[3; 4]]%float [[0.6; 0.8]]%float).
  reflexivity.
Defined.

Lemma zero_norm_zeros (k : nat) : zero_norm (replicate k 0%float) = true.
Proof.
  unfold zero_norm, euclidean_norm.
  assert (fold_left PrimFloat.add (map (fun x => x * x)%float (replicate k 0%float)) 0%float
          = 0%float) as ->; [|reflexivity].
  induction k as [|k IH]; [done|]. simpl.
  replace (0 + 0 * 0)%float with 0%float by reflexivity. exact IH.
Qed.

Lemma count_edges_le_out_degree (i j : N) (links : list NoteLink) :
  count_edges i j links <= out_degree i links.
Proof.
  induction links as [|l links IH]; [done|].
  rewrite count_edges_cons, out_degree_cons.
  destruct (decide (from_id l = i)) as [Hi|Hi].
  - case_decide; lia.
  - rewrite decide_False by (by intros []). lia.
Qed.

(** X6. The rows of a link graph with a note that links to nothing cannot
    be normalised: [build_adjacency_matrix] returns an all-zero row for that
    note, and [normalize_vectors] on the rows fails with [ZeroNormVector]
    for the whole graph. *)
Theorem normalize_fails_on_note_without_links (usize_bits : N) (overflow_checks : bool)
    (n : N) (links : list NoteLink) (i : N) :
  N.of_nat (length links) < 2 ^ usize_bits ->
  Forall (valid_link n) links ->
  i < n ->
  out_degree i links = 0 ->
  exists vs,
    build_adjacency_matrix usize_bits overflow_checks n links = Ok vs
    /\ vs !! N.to_nat i = Some (replicate (N.to_nat n) 0%float)
    /\ normalize_vectors vs = Err ZeroNormVector.
Proof.
  intros Hlen HF Hi Hdeg.
  destruct (build_adjacency_matrix_valid usize_bits overflow_checks n links Hlen HF)
    as (vs & Hvs & Hl & Hrows & Hcell).
  exists vs. split; [done|].
  destruct (lookup_lt_is_Some_2 vs (N.to_nat i)) as [row Hrow]; [lia|].
  assert (row = replicate (N.to_nat n) 0%float) as ->.
  { assert (length row = N.to_nat n) as Hlr.
    { eapply Forall_forall in Hrows; [exact Hrows|]. by eapply list_elem_of_lookup_2. }
    apply list_eq. intros k. destruct (decide (k < N.to_nat n)%nat) as [Hk|Hk].
    - rewrite lookup_replicate_2 by done.
      specialize (Hcell i (N.of_nat k) Hi ltac:(lia)). unfold cell in Hcell.
      rewrite Hrow in Hcell. simpl in Hcell. rewrite Nat2N.id in Hcell. rewrite Hcell.
      pose proof (count_edges_le_out_degree i (N.of_nat k) links) as Hle.
      replace (count_edges i (N.of_nat k) links) with 0 by lia. reflexivity.
    - rewrite lookup_ge_None_2 by lia.
      symmetry. apply lookup_replicate_None. lia. }
  split; [done|].
  unfold normalize_vectors. rewrite collect_normalize.
  replace (existsb zero_norm vs) with true; [done|].
  symmetry. apply existsb_exists. exists (replicate (N.to_nat n) 0%float).
  split; [|apply zero_norm_zeros].
  apply list_elem_of_In. by eapply list_elem_of_lookup_2.
Qed.

Lemma normalize_fails_on_note_without_links_witness :
  exists vs,
    build_adjacency_matrix 32 false 3 basic_links = Ok vs
    /\ vs !! N.to_nat 2 = Some (replicate (N.to_nat 3) 0%float)
    /\ normalize_vectors vs = Err ZeroNormVector.
Proof.
  apply (normalize_fails_on_note_without_links 32 false 3 basic_links 2).
  - reflexivity.
  - unfold basic_links, valid_link. repeat constructor.
  - reflexivity.
  - reflexivity.
Defined.

(** ** [fetchVectors] and its cache *)

Lemma string_length_app (s t : string) :
  String.length (s +:+ t) = (String.length s + String.length t)%nat.
Proof. induction s as [|c s IH]; simpl; [done | by rewrite IH]. Qed.

Lemma string_app_inv_head (s a b : string) : s +:+ a = s +:+ b -> a = b.
Proof. induction s as [|c s IH]; simpl; [done|]. intros [= H]. by apply IH. Qed.

Lemma string_app_inv_tail (t a b : string) : a +:+ t = b +:+ t -> a = b.
Proof.
  revert b. induction a as [|c a IH]; intros [|d b] H; simpl in H.
  - done.
  - apply (f_equal String.length) in H. simpl in H.
    rewrite !string_length_app in H. simpl in H. lia.
  - apply (f_equal String.length) in H. simpl in H.
    rewrite !string_length_app in H. simpl in H. lia.
  - injection H as -> H. f_equal. by apply IH.
Qed.

Lemma getCacheKey_inj (vaultName : string) (c1 c2 : VectorSourceConfig) :
  getCacheKey vaultName c1 = getCacheKey vaultName c2 ->
  cfg_type c1 = cfg_type c2 /\ cfg_id c1 = cfg_id c2.
Proof.
  unfold getCacheKey. intros H.
  destruct (cfg_type c1), (cfg_type c2); simpl in H; try discriminate H.
  - split; [done|].
    apply (string_app_inv_head "embedding_model:") in H.
    by apply string_app_inv_tail in H.
  - split; [done|].
    apply (string_app_inv_head "adjacency_matrix:") in H.
    by apply string_app_inv_tail in H.
Qed.

(** X7. Within a vault the cache key is determined by the type and the id
    of the source and by nothing else: two configurations share a cache
    entry exactly when they agree on both, whatever their names and
    dimensionalities. *)
Theorem getCacheKey_type_and_id (vaultName : string) (c1 c2 : VectorSourceConfig) :
  getCacheKey vaultName c1 = getCacheKey vaultName c2
  <-> cfg_type c1 = cfg_type c2 /\ cfg_id c1 = cfg_id c2.
Proof.
  split; [apply getCacheKey_inj|].
  unfold getCacheKey. by intros [-> ->].
Qed.

(** X8. What [fetchVectors] returns with points it also finds again: after
    a call that returned a non-empty list, a second call for the same source
    on the resulting cache returns the same points without asking the
    provider or the WASM functions, whatever these would answer. *)
Theorem fetchVectors_cached_afterwards
    (reduce_dimensions_svd : list (list float) -> N -> js (list (list float)))
    (cluster_vectors : list (list float) -> N -> js (list N))
    (vaultName : string)
    (sourceProviders : VectorSourceType -> option (VectorSourceConfig -> js (list VectorDataPoint)))
    (cache cache' : gmap string (list VectorDataPoint))
    (sourceConfig : VectorSourceConfig)
    (points : list VectorDataPoint) (calls : list wasm_call) :
  fetchVectors reduce_dimensions_svd cluster_vectors vaultName sourceProviders
    cache sourceConfig = (Returned points, cache', calls) ->
  points <> [] ->
  forall reduce_dimensions_svd' cluster_vectors' sourceProviders',
    fetchVectors reduce_dimensions_svd' cluster_vectors' vaultName sourceProviders'
      cache' sourceConfig = (Returned points, cache', []).
Proof.
  unfold fetchVectors. intros H Hne R' C' P'.
  destruct (cache !! getCacheKey vaultName sourceConfig) as [cached|] eqn:Ec.
  - injection H as <- <- <-. by rewrite Ec.
  - destruct (sourceProviders (cfg_type sourceConfig)) as [provider|]; [|done].
    destruct (provider sourceConfig) as [raw|]; [|done].
    destruct (N.of_nat (length raw) =? 0); [by injection H as <- |].
    destruct (reduce_dimensions_svd _ _) as [reduced3d|]; [|done].
    destruct (cluster_vectors _ _) as [clusters|]; [|done].
    injection H as <- <- <-. by rewrite lookup_insert_eq.
Qed.

Lemma fetchVectors_cached_afterwards_witness :
  let a := mkPoint "a.md" "a" [1; 0; 0]%float [0; 0; 0]%float 0
             "forward-links" "Forward Links Graph" ADJACENCY_MATRIX in
  let a' := mkPoint "a.md" "a" [1; 0; 0]%float [1; 2; 3]%float 0
             "forward-links" "Forward Links Graph" ADJACENCY_MATRIX in
  let sourceConfig := mkConfig ADJACENCY_MATRIX "forward-links" "Forward Links Graph" 3 in
  let key := "adjacency_matrix:forward-links:vault" in
  fetchVectors (fun _ _ => Thrown "Reduction error") (fun _ _ => Thrown "Clustering error")
    "vault" (fun _ => None) (<[key := [a']]> ∅) sourceConfig
  = (Returned [a'], <[key := [a']]> ∅, []).
Proof.
  intros a a' sourceConfig key.
  apply (fetchVectors_cached_afterwards
           (fun _ _ => Returned [[1; 2; 3]%float]) (fun _ _ => Returned [0]) "vault"
           (fun _ => Some (fun _ => Returned [a])) ∅ (<[key := [a']]> ∅) sourceConfig [a']
           [Call_reduce_dimensions_svd [[1; 0; 0]%float] 3;
            Call_cluster_vectors [[1; 0; 0]%float] 3]).
  - reflexivity.
  - discriminate.
Defined.

(** X9. [fetchVectors] writes the cache only when it returns freshly
    computed points, and then only the entry of the requested source: when
    it throws, when the provider has no vectors and when the entry exists
    the cache is left as it was, and every other entry is always kept. *)
Theorem fetchVectors_cache_frame
    (reduce_dimensions_svd : list (list float) -> N -> js (list (list float)))
    (cluster_vectors : list (list float) -> N -> js (list N))
    (vaultName : string)
    (sourceProviders : VectorSourceType -> option (VectorSourceConfig -> js (list VectorDataPoint)))
    (cache : gmap string (list VectorDataPoint))
    (sourceConfig : VectorSourceConfig) :
  let r := fetchVectors reduce_dimensions_svd cluster_vectors vaultName sourceProviders
             cache sourceConfig in
  let result := fst (fst r) in
  let cache' := snd (fst r) in
  let key := getCacheKey vaultName sourceConfig in
  (forall k, k <> key -> cache' !! k = cache !! k)
  /\ (forall e, result = Thrown e -> cache' = cache)
  /\ (result = Returned [] -> cache' = cache)
  /\ (is_Some (cache !! key) -> cache' = cache /\ result = Returned (default [] (cache !! key))
                                /\ snd r = [])
  /\ (cache' = cache
      \/ exists points, result = Returned points /\ points <> []
                        /\ cache !! key = None /\ cache' = <[key := points]> cache).
Proof.
  intros r result cache' key. subst r result cache' key. unfold fetchVectors.
  destruct (cache !! getCacheKey vaultName sourceConfig) as [cached|] eqn:Ec; simpl.
  { split; [done|]. split; [done|]. split; [done|]. split; [done|]. by left. }
  assert (~ is_Some (@None (list VectorDataPoint))) as HnS by (by intros [? ?]).
  assert (forall (res : js (list VectorDataPoint)) (calls : list wasm_call),
    let r := (res, cache, calls) in
    (forall k, k <> getCacheKey vaultName sourceConfig -> snd (fst r) !! k = cache !! k)
    /\ (forall e, fst (fst r) = Thrown e -> snd (fst r) = cache)
    /\ (fst (fst r) = Returned [] -> snd (fst r) = cache)
    /\ (is_Some (@None (list VectorDataPoint)) ->
         snd (fst r) = cache /\ fst (fst r) = Returned (default [] None) /\ snd r = [])
    /\ (snd (fst r) = cache
        \/ exists points, fst (fst r) = Returned points /\ points <> []
             /\ @None (list VectorDataPoint) = None
             /\ snd (fst r) = <[getCacheKey vaultName sourceConfig := points]> cache))
    as Hsame.
  { intros res calls. simpl.
    split; [done|]. split; [done|]. split; [done|]. split; [by intros ?%HnS|]. by left. }
  destruct (sourceProviders (cfg_type sourceConfig)) as [provider|]; [|apply Hsame].
  destruct (provider sourceConfig) as [raw|]; [|apply Hsame].
  destruct (N.eqb_spec (N.of_nat (length raw)) 0) as [E0|E0]; [apply Hsame|].
  destruct (reduce_dimensions_svd _ _) as [reduced3d|]; [|apply Hsame].
  destruct (cluster_vectors _ _) as [clusters|]; [|apply Hsame].
  simpl.
  assert (imap (merge_point reduced3d clusters) raw <> []) as Hne.
  { intros H%(f_equal length). rewrite length_imap in H. simpl in H. lia. }
  split; [intros k Hk; by rewrite lookup_insert_ne|].
  split; [done|]. split; [by intros [= H]|]. split; [by intros ?%HnS|].
  right. eexists. repeat split; done.
Qed.

(** X10. A freshly computed result is aligned with what the provider
    returned: as many points, in the same order, each with its id, label,
    vector and source fields unchanged. A point for which the reduction
    returned no row is placed at the origin, and one for which the
    clustering returned no index gets cluster 0. *)
Theorem fetchVectors_result_aligned
    (reduce_dimensions_svd : list (list float) -> N -> js (list (list float)))
    (cluster_vectors : list (list float) -> N -> js (list N))
    (vaultName : string)
    (sourceProviders : VectorSourceType -> option (VectorSourceConfig -> js (list VectorDataPoint)))
    (cache : gmap string (list VectorDataPoint))
    (sourceConfig : VectorSourceConfig)
    (provider : VectorSourceConfig -> js (list VectorDataPoint))
    (rawVectors : list VectorDataPoint)
    (reduced3d : list (list float)) (clusters : list N) :
  cache !! getCacheKey vaultName sourceConfig = None ->
  sourceProviders (cfg_type sourceConfig) = Some provider ->
  provider sourceConfig = Returned rawVectors ->
  rawVectors <> [] ->
  reduce_dimensions_svd (map pt_vector rawVectors) 3 = Returned reduced3d ->
  cluster_vectors (map pt_vector rawVectors) (clusterCount (N.of_nat (length rawVectors)))
    = Returned clusters ->
  exists points,
    fst (fst (fetchVectors reduce_dimensions_svd cluster_vectors vaultName sourceProviders
                cache sourceConfig)) = Returned points
    /\ length points = length rawVectors
    /\ forall i v, rawVectors !! i = Some v ->
         exists p, points !! i = Some p
           /\ pt_id p = pt_id v /\ pt_label p = pt_label v /\ pt_vector p = pt_vector v
           /\ pt_sourceId p = pt_sourceId v /\ pt_sourceName p = pt_sourceName v
           /\ pt_sourceType p = pt_sourceType v
           /\ pt_position3d p
              = match reduced3d !! i with Some row => row | None => [0; 0; 0]%float end
           /\ pt_cluster p = match clusters !! i with Some c => c | None => 0 end.
Proof.
  intros Hc Hp Hr Hne HR HC. unfold fetchVectors. rewrite Hc, Hp, Hr.
  destruct (N.eqb_spec (N.of_nat (length rawVectors)) 0) as [E0|_].
  { destruct rawVectors; [done | simpl in E0; lia]. }
  rewrite HR, length_map, HC. simpl.
  eexists. split; [done|]. split; [apply length_imap|].
  intros i v Hv. eexists. rewrite list_lookup_imap, Hv. simpl. split; [done|].
  unfold merge_point. simpl. repeat split; done.
Qed.

Lemma fetchVectors_result_aligned_witness :
  let a := mkPoint "a.md" "a" [1; 0; 0]%float [0; 0; 0]%float 0
             "forward-links" "Forward Links Graph" ADJACENCY_MATRIX in
  let b := mkPoint "b.md" "b" [0; 0; 0]%float [0; 0; 0]%float 0
             "forward-links" "Forward Links Graph" ADJACENCY_MATRIX in
  let reduce := fun (_ : list (list float)) (_ : N) => Returned [[1; 2; 3]%float] in
  let cluster := fun (_ : list (list float)) (_ : N) => Returned [2] in
  let providers := fun (_ : VectorSourceType) =>
    Some (fun (_ : VectorSourceConfig) => Returned [a; b]) in
  let sourceConfig := mkConfig ADJACENCY_MATRIX "forward-links" "Forward Links Graph" 3 in
  exists points,
    fst (fst (fetchVectors reduce cluster "vault" providers ∅ sourceConfig)) = Returned points
    /\ length points = length [a; b]
    /\ forall i v, [a; b] !! i = Some v ->
         exists p, points !! i = Some p
           /\ pt_id p = pt_id v /\ pt_label p = pt_label v /\ pt_vector p = pt_vector v
           /\ pt_sourceId p = pt_sourceId v /\ pt_sourceName p = pt_sourceName v
           /\ pt_sourceType p = pt_sourceType v
           /\ pt_position3d p
              = match [[1; 2; 3]%float] !! i with Some row => row | None => [0; 0; 0]%float end
           /\ pt_cluster p = match [2] !! i with Some c => c | None => 0 end.
Proof.
  intros a b reduce cluster providers sourceConfig.
  apply (fetchVectors_result_aligned reduce cluster "vault" providers ∅ sourceConfig
           (fun _ => Returned [a; b]) [a; b] [[1; 2; 3]%float] [2]).
  - reflexivity.
  - reflexivity.
  - reflexivity.
  - discriminate.
  - reflexivity.
  - reflexivity.
Defined.

(** ** The "Categorical" scheme on all indices *)

Lemma categorical_of_residue (index total : Z) :
  (0 <= index)%Z ->
  categorical_getColor index total
  = match js_index palette (index mod 8)%Z with
    | Some hex => ColorHex hex
    | None => ColorDefault
    end.
Proof.
  intros H. unfold categorical_getColor. simpl Z.of_nat.
  by rewrite Z.rem_mod_nonneg by lia.
Qed.

(** X11. For cluster indices (non-negative integers) the "Categorical"
    scheme gives two clusters the same colour exactly when their indices are
    congruent modulo 8, whatever totals are passed: up to 8 clusters always
    get pairwise different colours. *)
Theorem categorical_same_colour_iff (i j total total' : Z) :
  (0 <= i)%Z -> (0 <= j)%Z ->
  categorical_getColor i total = categorical_getColor j total'
  <-> (i mod 8 = j mod 8)%Z.
Proof.
  intros Hi Hj. rewrite !categorical_of_residue by done.
  pose proof (Z.mod_pos_bound i 8 ltac:(lia)) as Bi.
  pose proof (Z.mod_pos_bound j 8 ltac:(lia)) as Bj.
  split; [|by intros ->].
  assert (forall r : Z, (0 <= r < 8)%Z ->
    r = 0%Z \/ r = 1%Z \/ r = 2%Z \/ r = 3%Z \/ r = 4%Z \/ r = 5%Z \/ r = 6%Z \/ r = 7%Z)
    as Hcases by (intros; lia).
  destruct (Hcases _ Bi) as [->|[->|[->|[->|[->|[->|[->| ->]]]]]]];
  destruct (Hcases _ Bj) as [->|[->|[->|[->|[->|[->|[->| ->]]]]]]];
  vm_compute; first [reflexivity | discriminate].
Qed.

Lemma categorical_same_colour_iff_witness :
  categorical_getColor 3 4 = categorical_getColor 19 20 <-> (3 mod 8 = 19 mod 8)%Z.
Proof. apply (categorical_same_colour_iff 3 19 4 20); lia. Defined.

(** X12. Outside the cluster indices the scheme falls off the palette: a
    negative index that is not a multiple of 8 has a negative remainder, for
    which the palette has no entry, and gets the default colour; a negative
    multiple of 8 gets the first palette colour. A non-negative index always
    gets a palette colour. *)
Theorem categorical_negative_index_default (index total : Z) :
  ((0 <= index)%Z ->
   exists hex, hex ∈ palette /\ categorical_getColor index total = ColorHex hex)
  /\ ((index < 0)%Z ->
      categorical_getColor index total
      = if decide (index mod 8 = 0)%Z then ColorHex 0xff6b6b else ColorDefault).
Proof.
  split.
  - intros H. rewrite categorical_of_residue by done.
    pose proof (Z.mod_pos_bound index 8 ltac:(lia)) as B.
    assert (index mod 8 = 0 \/ index mod 8 = 1 \/ index mod 8 = 2 \/ index mod 8 = 3
            \/ index mod 8 = 4 \/ index mod 8 = 5 \/ index mod 8 = 6 \/ index mod 8 = 7)%Z
      as Hc by lia.
    clear B.
    destruct Hc as [->|[->|[->|[->|[->|[->|[->| ->]]]]]]];
      eexists; (split; [|reflexivity]); unfold palette; set_solver.
  - intros H. unfold categorical_getColor.
    change (Z.of_nat (length palette)) with 8%Z.
    assert (Z.rem index 8 = - ((- index) mod 8))%Z as ->.
    { rewrite <- (Z.opp_involutive index) at 1.
      rewrite Z.rem_opp_l by lia. by rewrite Z.rem_mod_nonneg by lia. }
    pose proof (Z.mod_pos_bound (- index) 8 ltac:(lia)) as B.
    destruct (decide (index mod 8 = 0)%Z) as [E|E].
    + assert ((- index) mod 8 = 0)%Z as -> by (apply Z.mod_opp_l_z; lia).
      reflexivity.
    + assert ((- index) mod 8 <> 0)%Z as Hne.
      { intros E'. apply E. rewrite <- (Z.opp_involutive index).
        apply Z.mod_opp_l_z; lia. }
      unfold js_index.
      destruct (Z.ltb_spec (- ((- index) mod 8)) 0) as [_|Hge]; [done | lia].
Qed.

(** ** The index of note paths *)

Lemma index_from_lookup (paths : list string) (k : N) (m : gmap string N) (p : string) (i : N) :
  index_from k paths m !! p = Some i
  <-> (exists j : nat, paths !! j = Some p /\ i = k + N.of_nat j
                       /\ forall j', (j < j')%nat -> paths !! j' <> Some p)
      \/ ((p ∉ paths) /\ m !! p = Some i).
Proof.
  revert k m. induction paths as [|x paths IH]; intros k m; simpl.
  - split.
    + intros H. right. split; [apply not_elem_of_nil | done].
    + intros [(j & Hj & _)|[_ H]]; [by rewrite lookup_nil in Hj | done].
  - rewrite IH. split.
    + intros [(j & Hj & -> & Hlater)|[Hnin Hm]].
      * left. exists (S j). split; [done|]. split; [lia|].
        intros [|j'] Hlt; [lia|]. simpl. apply Hlater. lia.
      * destruct (decide (x = p)) as [->|Hne].
        -- rewrite lookup_insert_eq in Hm. injection Hm as <-.
           left. exists 0%nat. split; [done|]. split; [lia|].
           intros [|j'] Hlt; [lia|]. simpl. intros Hj'.
           apply Hnin. by eapply list_elem_of_lookup_2.
        -- rewrite lookup_insert_ne in Hm by done.
           right. split; [|done]. by intros [?|?]%elem_of_cons.
    + intros [(j & Hj & -> & Hlater)|[Hnin Hm]].
      * destruct j as [|j]; simpl in Hj.
        -- injection Hj as ->. right. split.
           ++ intros [j' Hj']%list_elem_of_lookup. by apply (Hlater (S j')); [lia|].
           ++ rewrite lookup_insert_eq. f_equal. lia.
        -- left. exists j. split; [done|]. split; [lia|].
           intros j' Hlt. apply (Hlater (S j')). lia.
      * right. apply not_elem_of_cons in Hnin as [Hne Hnin]. split; [done|].
        by rewrite lookup_insert_ne.
Qed.

Lemma index_by_path_lookup (paths : list string) (p : string) (i : N) :
  index_by_path paths !! p = Some i
  <-> paths !! N.to_nat i = Some p
      /\ forall j, (N.to_nat i < j)%nat -> paths !! j <> Some p.
Proof.
  unfold index_by_path. rewrite index_from_lookup. split.
  - intros [(j & Hj & -> & Hlater)|[_ H]]; [|by rewrite lookup_empty in H].
    rewrite N.add_0_l, Nat2N.id. done.
  - intros [Hi Hlater]. left. exists (N.to_nat i). split; [done|]. split; [lia | done].
Qed.

Lemma index_by_path_bound (paths : list string) (p : string) (i : N) :
  index_by_path paths !! p = Some i -> i < N.of_nat (length paths).
Proof.
  intros [Hi _]%index_by_path_lookup. apply lookup_lt_Some in Hi. lia.
Qed.

(** X13. [AdjacencyMatrixBuilder::new] counts the paths and maps every path
    to the position of its last occurrence in the list: looking up the path
    at a position gives that position back exactly when the path does not
    come again later, so for distinct paths the map inverts the list, and no
    id reaches [num_notes]. *)
Theorem AdjacencyMatrixBuilder_new_lookup (note_paths : list string) (p : string) (i : N) :
  num_notes (AdjacencyMatrixBuilder_new note_paths) = N.of_nat (length note_paths)
  /\ (note_id_map (AdjacencyMatrixBuilder_new note_paths) !! p = Some i
      <-> note_paths !! N.to_nat i = Some p
          /\ forall j, (N.to_nat i < j)%nat -> note_paths !! j <> Some p)
  /\ (note_id_map (AdjacencyMatrixBuilder_new note_paths) !! p = Some i ->
      i < num_notes (AdjacencyMatrixBuilder_new note_paths))
  /\ (NoDup note_paths -> note_paths !! N.to_nat i = Some p ->
      note_id_map (AdjacencyMatrixBuilder_new note_paths) !! p = Some i).
Proof.
  simpl. split; [done|]. split; [apply index_by_path_lookup|].
  split; [apply index_by_path_bound|].
  intros Hnd Hi. apply index_by_path_lookup. split; [done|].
  intros j Hlt Hj. pose proof (NoDup_lookup _ _ _ _ Hnd Hi Hj). lia.
Qed.

(** ** The links that the adjacency provider sends to [build] *)

Section ProviderLinks.
Variable wikiLinkRegex_exec : string -> list string.
Variable mdLinkRegex_exec : string -> list string.
Variable getFirstLinkpathDest : string -> string -> option TFile.
Variable read : TFile -> js string.

Lemma extract_all_in_range (pathToId : gmap string N) (n : N)
    (files : list TFile) (links0 links : list TsNoteLink) :
  (forall p i, pathToId !! p = Some i -> i < n) ->
  Forall (fun l => fromId l < n /\ toId l < n) links0 ->
  extract_all wikiLinkRegex_exec mdLinkRegex_exec getFirstLinkpathDest read
    pathToId files links0 = Returned links ->
  Forall (fun l => fromId l < n /\ toId l < n) links.
Proof.
  intros Hb. revert links0. induction files as [|file files IH]; intros links0 H0 H; simpl in H.
  - by injection H as <-.
  - destruct (pathToId !! tf_path file) as [fromId0|] eqn:Ef; [|by apply (IH links0)].
    destruct (read file) as [content|]; [|done].
    apply IH in H; [done|]. apply Forall_app. split; [done|].
    apply Forall_forall. intros l Hl. apply list_elem_of_omap in Hl as (q & _ & Hq).
    destruct (pathToId !! q) as [t|] eqn:Et; [|done]. injection Hq as <-. simpl.
    split; by eapply Hb.
Qed.

Lemma out_degree_to_NoteLink (i : N) (links : list TsNoteLink) :
  N.of_nat (length (filter (fun l => fromId l = i) links))
  = out_degree i (map to_NoteLink links).
Proof.
  unfold out_degree. f_equal. induction links as [|l links IH]; [done|].
  simpl. rewrite !filter_cons. simpl.
  destruct (decide (fromId l = i)); simpl; by rewrite IH.
Qed.

Lemma collected_links_valid (files : list TFile) (links : list TsNoteLink) :
  extract_all wikiLinkRegex_exec mdLinkRegex_exec getFirstLinkpathDest read
    (index_by_path (map tf_path files)) files [] = Returned links ->
  Forall (valid_link (N.of_nat (length files))) (map to_NoteLink links).
Proof.
  intros H. apply Forall_forall. intros l [l0 [-> Hl0]]%list_elem_of_fmap.
  pose proof (extract_all_in_range (index_by_path (map tf_path files))
                (N.of_nat (length files)) files [] links) as HF.
  eapply Forall_forall in HF; [exact HF| | constructor | exact H | exact Hl0].
  intros p i Hp. apply index_by_path_bound in Hp. by rewrite length_map in Hp.
Qed.

(** X14. Every link that [AdjacencyMatrixProvider.fetchVectors] collects
    joins two of the vault's markdown files: both ids are positions in the
    list of files, whatever the notes contain and however links resolve. So
    [build] on these links, with one note per file, never fails with
    [InvalidLinkIndex]: it returns one row per file. *)
Theorem provider_links_in_range (usize_bits : N) (overflow_checks : bool)
    (files : list TFile) (links : list TsNoteLink) :
  extract_all wikiLinkRegex_exec mdLinkRegex_exec getFirstLinkpathDest read
    (index_by_path (map tf_path files)) files [] = Returned links ->
  N.of_nat (length links) < 2 ^ usize_bits ->
  Forall (valid_link (N.of_nat (length files))) (map to_NoteLink links)
  /\ exists vs,
       build_adjacency_matrix usize_bits overflow_checks (N.of_nat (length files))
         (map to_NoteLink links) = Ok vs
       /\ length vs = length files
       /\ Forall (fun v => length v = length files) vs.
Proof.
  intros H Hlen.
  pose proof (collected_links_valid files links H) as HF.
  split; [done|].
  destruct (build_adjacency_matrix_valid usize_bits overflow_checks
              (N.of_nat (length files)) (map to_NoteLink links))
    as (vs & Hvs & Hl & Hrows & _); [by rewrite length_map | done |].
  exists vs. rewrite Nat2N.id in Hl, Hrows. done.
Qed.

(** X15. The points of the adjacency provider are aligned with the files:
    one point per file in the order of the files, with the file's path as
    id, its basename as label and row [i] of the WASM result as vector (the
    empty vector when the result has no such row). The [linkCount] of point
    [i] is the out-degree of note [i] among the collected links, which is
    the sum of row [i] of their adjacency matrix. *)
Theorem adjacency_points_aligned
    (wasm_build_adjacency_matrix wasm_build_laplacian_matrix :
       list string -> list TsNoteLink -> js (list (list float)))
    (files : list TFile) (config : VectorSourceConfig) (graphType : string)
    (normalize : bool) (links : list TsNoteLink) (vectors : list (list float)) :
  extract_all wikiLinkRegex_exec mdLinkRegex_exec getFirstLinkpathDest read
    (index_by_path (map tf_path files)) files [] = Returned links ->
  (if String.eqb graphType "laplacian"
   then wasm_build_laplacian_matrix (map tf_path files) links
   else wasm_build_adjacency_matrix (map tf_path files) links) = Returned vectors ->
  exists points,
    adjacency_fetchVectors wikiLinkRegex_exec mdLinkRegex_exec getFirstLinkpathDest read
      wasm_build_adjacency_matrix wasm_build_laplacian_matrix
      files config (AdjacencySourceConfig graphType normalize) = Returned points
    /\ length points = length files
    /\ forall i file, files !! i = Some file ->
         exists p, points !! i = Some p
           /\ pt_id (adp_point p) = tf_path file
           /\ pt_label (adp_point p) = tf_basename file
           /\ pt_vector (adp_point p)
              = match vectors !! i with Some row => row | None => [] end
           /\ adp_metadata_path p = tf_path file
           /\ adp_metadata_linkCount p = out_degree (N.of_nat i) (map to_NoteLink links)
           /\ Z.of_N (adp_metadata_linkCount p)
              = sumZ (map (fun j => Z.of_N (count_edges (N.of_nat i) j (map to_NoteLink links)))
                        (range (N.of_nat (length files)))).
Proof.
  intros H Hb. unfold adjacency_fetchVectors. rewrite H, Hb.
  eexists. split; [done|]. split; [apply length_imap|].
  intros i file Hi. eexists. rewrite list_lookup_imap, Hi. simpl. split; [done|].
  unfold adjacency_point. simpl. split; [done|]. split; [done|]. split; [done|].
  split; [done|]. split; [apply out_degree_to_NoteLink|].
  rewrite out_degree_to_NoteLink. symmetry. apply sum_count_edges.
  by apply collected_links_valid.
Qed.

End ProviderLinks.

Lemma provider_links_in_range_witness :
  let a := mkTFile "a.md" "a" in
  let b := mkTFile "b.md" "b" in
  let links := [mkTsNoteLink 0 1] in
  Forall (valid_link (N.of_nat (length [a; b]))) (map to_NoteLink links)
  /\ exists vs,
       build_adjacency_matrix 32 false (N.of_nat (length [a; b]))
         (map to_NoteLink links) = Ok vs
       /\ length vs = length [a; b]
       /\ Forall (fun v => length v = length [a; b]) vs.
Proof.
  intros a b links.
  apply (provider_links_in_range
           (fun content => if String.eqb content "[[b]]" then ["b"] else [])
           (fun _ => [])
           (fun linkText _ => if String.eqb linkText "b" then Some b else None)
           (fun file => Returned (if String.eqb (tf_path file) "a.md" then "[[b]]" else ""))
           32 false [a; b] links).
  - reflexivity.
  - reflexivity.
Defined.

Lemma adjacency_points_aligned_witness :
  let a := mkTFile "a.md" "a" in
  let b := mkTFile "b.md" "b" in
  let wiki := fun content : string => if String.eqb content "[[b]]" then ["b"] else [] in
  let md := fun _ : string => @nil string in
  let dest := fun (linkText _ : string) =>
    if String.eqb linkText "b" then Some b else None in
  let read := fun file =>
    Returned (if String.eqb (tf_path file) "a.md" then "[[b]]" else "") in
  let wasm := fun (_ : list string) (_ : list TsNoteLink) =>
    Returned [[0; 1]; [0; 0]]%float in
  let config := mkConfig ADJACENCY_MATRIX "forward-links" "Forward Links Graph" 2 in
  let links := [mkTsNoteLink 0 1] in
  exists points,
    adjacency_fetchVectors wiki md dest read wasm wasm
      [a; b] config (AdjacencySourceConfig "forward-links" true) = Returned points
    /\ length points = length [a; b]
    /\ forall i file, [a; b] !! i = Some file ->
         exists p, points !! i = Some p
           /\ pt_id (adp_point p) = tf_path file
           /\ pt_label (adp_point p) = tf_basename file
           /\ pt_vector (adp_point p)
              = match [[0; 1]; [0; 0]]%float !! i with Some row => row | None => [] end
           /\ adp_metadata_path p = tf_path file
           /\ adp_metadata_linkCount p = out_degree (N.of_nat i) (map to_NoteLink links)
           /\ Z.of_N (adp_metadata_linkCount p)
              = sumZ (map (fun j => Z.of_N (count_edges (N.of_nat i) j (map to_NoteLink links)))
                        (range (N.of_nat (length [a; b])))).
Proof.
  intros a b wiki md dest read wasm config links.
  apply (adjacency_points_aligned wiki md dest read wasm wasm [a; b] config
           "forward-links" true links [[0; 1]; [0; 0]]%float).
  - reflexivity.
  - reflexivity.
Defined.

(** ** Source discovery *)

Lemma collection_source_fields (collection : QdrantCollection) :
  cfg_type (fst (collection_source collection)) = EMBEDDING_MODEL
  /\ cfg_id (fst (collection_source collection)) = qc_name collection
  /\ cfg_dimensionality (fst (collection_source collection)) <> 0.
Proof.
  unfold collection_source. simpl. split; [done|]. split; [done|].
  destruct (qc_vectors_count collection) as [[|c]|]; done.
Qed.

Lemma discoverSources_cases
    (fetch : string -> js (Response (option (option (list QdrantCollection))))) :
  discoverSources fetch = []
  \/ exists response collections,
       fetch (default_endpoint +:+ "/collections") = Returned response
       /\ ok response = true
       /\ json response = Returned (Some (Some collections))
       /\ discoverSources fetch = map collection_source collections.
Proof.
  unfold discoverSources.
  destruct (fetch _) as [response|]; [|by left].
  destruct (ok response) eqn:Eok; simpl; [|by left].
  destruct (json response) as [[[collections|]|]|] eqn:Ej; simpl; try by left.
  right. by exists response, collections.
Qed.

Lemma discoverSources_embedding
    (fetch : string -> js (Response (option (option (list QdrantCollection))))) :
  Forall (fun s => cfg_type (fst s) = EMBEDDING_MODEL
                   /\ cfg_dimensionality (fst s) <> 0
                   /\ cfg_name (fst s) = cfg_id (fst s) +:+ " (Embedding)")
    (discoverSources fetch).
Proof.
  destruct (discoverSources_cases fetch) as [->|(r & cs & _ & _ & _ & ->)]; [constructor|].
  apply Forall_forall. intros s [c [-> _]]%list_elem_of_fmap.
  destruct (collection_source_fields c) as (Ht & Hid & Hd). done.
Qed.

(** X16. [discoverSources] degrades to no source: when the request for
    [http://localhost:6333/collections] is rejected, the status is not ok or
    the body does not parse, it returns the empty list and never throws.
    Otherwise it returns one source per Qdrant collection, in order: an
    embedding source with the collection's name as id, model and collection,
    the name followed by " (Embedding)" as name, the default endpoint, and
    the collection's [vectors_count] as dimensionality, or 1536 when the
    count is missing or 0. So no source has dimensionality 0. *)
Theorem discoverSources_degrades
    (fetch : string -> js (Response (option (option (list QdrantCollection))))) :
  let fetched := fetch "http://localhost:6333/collections" in
  (forall e, fetched = Thrown e -> discoverSources fetch = [])
  /\ (forall response, fetched = Returned response -> ok response = false ->
        discoverSources fetch = [])
  /\ (forall response e, fetched = Returned response -> json response = Thrown e ->
        discoverSources fetch = [])
  /\ (forall response data,
        fetched = Returned response -> ok response = true ->
        json response = Returned data ->
        let collections := match data with Some (Some cs) => cs | _ => [] end in
        length (discoverSources fetch) = length collections
        /\ forall i c, collections !! i = Some c ->
             discoverSources fetch !! i
             = Some (mkConfig EMBEDDING_MODEL (qc_name c) (qc_name c +:+ " (Embedding)")
                       (match qc_vectors_count c with
                        | Some count => if decide (count = 0) then 1536 else count
                        | None => 1536
                        end),
                     EmbeddingSourceConfig (qc_name c) (qc_name c)
                       (Some "http://localhost:6333")))
  /\ Forall (fun s => cfg_type (fst s) = EMBEDDING_MODEL
                      /\ cfg_dimensionality (fst s) <> 0
                      /\ cfg_name (fst s) = cfg_id (fst s) +:+ " (Embedding)")
       (discoverSources fetch).
Proof.
  intros fetched. subst fetched. unfold discoverSources.
  change (default_endpoint +:+ "/collections") with "http://localhost:6333/collections".
  split; [|split; [|split; [|split]]].
  - intros e H. by rewrite H.
  - intros response H Hok. by rewrite H, Hok.
  - intros response e H Hj. rewrite H, Hj. by destruct (ok response).
  - intros response data H Hok Hj. cbv zeta. rewrite H, Hok, Hj. simpl.
    destruct data as [[collections|]|]; simpl; [|by split|by split].
    split; [apply length_map|].
    intros i c Hc. change (map collection_source collections)
      with (collection_source <$> collections).
    rewrite list_lookup_fmap, Hc. simpl. f_equal.
    unfold collection_source, default_endpoint. do 2 f_equal.
    destruct (qc_vectors_count c) as [[|count]|]; done.
  - apply discoverSources_embedding.
Qed.

(** X17. [discoverAvailableSources] always offers the link graph: the list
    is never empty and ends with the "forward-links" source, whose
    dimensionality is the number of markdown files; it is the only source of
    type adjacency matrix. When Qdrant gives no usable answer the link graph
    is the only, and so the default, source. *)
Theorem discoverAvailableSources_has_link_graph
    (fetch : string -> js (Response (option (option (list QdrantCollection)))))
    (files : list TFile) :
  let sources := discoverAvailableSources (Some (discoverSources fetch)) files in
  sources <> []
  /\ last sources = Some (forward_links_source files)
  /\ cfg_dimensionality (fst (forward_links_source files)) = N.of_nat (length files)
  /\ (forall s, s ∈ sources -> cfg_type (fst s) = ADJACENCY_MATRIX ->
      s = forward_links_source files)
  /\ (discoverSources fetch = [] ->
      sources = [forward_links_source files]
      /\ head sources = Some (forward_links_source files))
  /\ discoverAvailableSources None files = [forward_links_source files].
Proof.
  intros sources. subst sources. unfold discoverAvailableSources.
  split; [by destruct (discoverSources fetch)|].
  split; [apply last_snoc|]. split; [done|]. split.
  - intros s [Hs|Hs]%elem_of_app Ht.
    + pose proof (discoverSources_embedding fetch) as HF.
      eapply Forall_forall in HF; [|exact Hs]. destruct HF as [HE _]. congruence.
    + by apply list_elem_of_singleton in Hs.
  - split; [|done]. by intros ->.
Qed.

(** X18. The sources that are discovered have different cache entries as
    long as the Qdrant collections have different names: no two of them,
    the link graph included, share a cache key, even when a collection is
    itself named "forward-links". *)
Theorem discovered_sources_distinct_cache_keys
    (fetch : string -> js (Response (option (option (list QdrantCollection)))))
    (files : list TFile) (vaultName : string) :
  NoDup (map (fun s => cfg_id (fst s)) (discoverSources fetch)) ->
  NoDup (map (fun s => getCacheKey vaultName (fst s))
           (discoverAvailableSources (Some (discoverSources fetch)) files)).
Proof.
  intros Hnd. unfold discoverAvailableSources. rewrite map_app.
  apply NoDup_app. split; [|split].
  - destruct (discoverSources_cases fetch) as [->|(r & cs & _ & _ & _ & E)]; [constructor|].
    rewrite E in *. clear E. rewrite map_map in *. simpl in *.
    induction cs as [|c cs IH]; [constructor|]. simpl in *.
    apply NoDup_cons in Hnd as [Hc Hnd]. apply NoDup_cons. split; [|by apply IH].
    intros [c' [Hk Hc']]%list_elem_of_fmap. apply Hc.
    apply list_elem_of_fmap. exists c'. split; [|done].
    apply getCacheKey_inj in Hk. by destruct Hk.
  - intros k Hk1 Hk2. simpl in Hk2. apply list_elem_of_singleton in Hk2. subst k.
    apply list_elem_of_fmap in Hk1 as (s & Hk & Hs).
    apply getCacheKey_inj in Hk as [Ht _].
    pose proof (discoverSources_embedding fetch) as HF.
    eapply Forall_forall in HF; [|exact Hs]. destruct HF as [HE _].
    simpl in Ht. congruence.
  - simpl. apply NoDup_singleton.
Qed.

Lemma discovered_sources_distinct_cache_keys_witness :
  let fetch := fun _ : string =>
    Returned (mkResponse true "OK"
      (Returned (Some (Some [mkQdrantCollection "notes" (Some 42);
                             mkQdrantCollection "forward-links" None])))) in
  NoDup (map (fun s => getCacheKey "vault" (fst s))
           (discoverAvailableSources (Some (discoverSources fetch))
              [mkTFile "a.md" "a"])).
Proof.
  intros fetch.
  apply (discovered_sources_distinct_cache_keys fetch [mkTFile "a.md" "a"] "vault").
  vm_compute. apply NoDup_cons. split; [|apply NoDup_singleton].
  intros Hin. apply list_elem_of_singleton in Hin. discriminate Hin.
Defined.

(** ** The source selector *)

Lemma find_snoc {A : Type} (f : A -> bool) (l : list A) (x : A) :
  List.find f (l ++ [x])
  = match List.find f l with
    | Some y => Some y
    | None => if f x then Some x else None
    end.
Proof. induction l as [|a l IH]; simpl; [done|]. by destruct (f a). Qed.

(** X19. Choosing "forward-links" in the source selector gives the link
    graph exactly when no Qdrant collection has that name: the selected
    source is the first one with the chosen id, the collections come first,
    and a collection named "forward-links" is found instead, so that the
    link graph cannot be selected. *)
Theorem forward_links_selected_iff
    (fetch : string -> js (Response (option (option (list QdrantCollection)))))
    (files : list TFile) :
  let sources := discoverAvailableSources (Some (discoverSources fetch)) files in
  (onSourceChanged sources "forward-links" = Some (forward_links_source files)
   <-> Forall (fun s => cfg_id (fst s) <> "forward-links") (discoverSources fetch))
  /\ (forall s, onSourceChanged sources "forward-links" = Some s ->
        s <> forward_links_source files ->
        s ∈ discoverSources fetch /\ cfg_type (fst s) = EMBEDDING_MODEL
        /\ cfg_id (fst s) = "forward-links")
  /\ onSourceChanged sources "forward-links" <> None.
Proof.
  intros sources. subst sources. unfold discoverAvailableSources, onSourceChanged.
  rewrite find_snoc.
  pose proof (discoverSources_embedding fetch) as HE.
  destruct (List.find _ (discoverSources fetch)) as [y|] eqn:Ef.
  - apply find_some in Ef as [Hin Hy]. apply String.eqb_eq in Hy.
    apply list_elem_of_In in Hin.
    pose proof Hin as Hy'. eapply Forall_forall in Hy'; [|exact HE]. destruct Hy' as [Ht _].
    split; [split|split].
    + intros [= ->]. simpl in Ht. discriminate.
    + intros HF. eapply Forall_forall in HF; [|exact Hin]. done.
    + intros s [= <-] _. done.
    + done.
  - simpl. split; [split|split].
    + intros _. apply Forall_forall. intros s Hs%list_elem_of_In.
      eapply find_none in Ef; [|exact Hs]. by apply String.eqb_neq in Ef.
    + done.
    + intros s [= <-] Hne. done.
    + done.
Qed.

(** ** The points of the embedding provider *)

(** X20. [EmbeddingSourceProvider.fetchVectors] asks the configured
    endpoint (the default one when none or an empty one is configured) for
    the points of the configured collection. A rejected request and a body
    that does not parse are rethrown, and a status that is not ok throws
    "Failed to fetch vectors: " with the status text. Otherwise it returns
    one point per Qdrant point, in order, with the id and vector of the
    Qdrant point, the placeholders (position at the origin, cluster 0) and
    the id, name and type of the requested source; the label is the title of
    the payload, or the id of the point when there is no title or the title
    is empty, so a point with an id never has an empty label. *)
Theorem embedding_points_labelled
    (fetch : string -> js (Response (option (option (list QdrantPoint)))))
    (config : VectorSourceConfig) (modelName qdrantCollection : string)
    (endpoint : option string) :
  let base := match endpoint with
              | Some e => if decide (e = "") then "http://localhost:6333" else e
              | None => "http://localhost:6333"
              end in
  let fetched := fetch (base +:+ "/collections/" +:+ qdrantCollection +:+ "/points/scroll") in
  let result := embedding_fetchVectors fetch config
                  (EmbeddingSourceConfig modelName qdrantCollection endpoint) in
  (forall e, fetched = Thrown e -> result = Thrown e)
  /\ (forall response, fetched = Returned response -> ok response = false ->
        result = Thrown ("Failed to fetch vectors: " +:+ statusText response))
  /\ (forall response e, fetched = Returned response -> ok response = true ->
        json response = Thrown e -> result = Thrown e)
  /\ (forall response data,
        fetched = Returned response -> ok response = true ->
        json response = Returned data ->
        let qpoints := match data with Some (Some qs) => qs | _ => [] end in
        exists points,
          result = Returned points
          /\ length points = length qpoints
          /\ forall i q, qpoints !! i = Some q ->
               points !! i
               = Some (mkPoint (qp_id q)
                         (match qp_payload_title q with
                          | Some title => if decide (title = "") then qp_id q else title
                          | None => qp_id q
                          end)
                         (qp_vector q) [0; 0; 0]%float 0
                         (cfg_id config) (cfg_name config) (cfg_type config)))
  /\ (forall points, result = Returned points ->
        Forall (fun p => pt_id p <> "" -> pt_label p <> "") points).
Proof.
  intros base fetched result. subst result fetched. unfold embedding_fetchVectors.
  assert (match endpoint with
          | Some e => if truthy_string e then e else default_endpoint
          | None => default_endpoint
          end = base) as ->.
  { subst base. unfold truthy_string, default_endpoint.
    destruct endpoint as [e|]; [|done].
    destruct (String.eqb_spec e ""), (decide (e = "")); done. }
  split; [|split; [|split; [|split]]].
  - intros e H. by rewrite H.
  - intros response H Hok. by rewrite H, Hok.
  - intros response e H Hok Hj. by rewrite H, Hok, Hj.
  - intros response data H Hok Hj. cbv zeta. rewrite H, Hok, Hj. simpl.
    eexists. split; [done|]. split; [by rewrite length_map; destruct data as [[?|]|]|].
    intros i q Hq.
    assert (default [] (data ≫= id) !! i = Some q) as Hq'
      by (by destruct data as [[?|]|]).
    set (qpoints := default [] (data ≫= id)) in *.
    change (map (embedding_point config) qpoints)
      with (embedding_point config <$> qpoints).
    rename Hq into Hq0. rename Hq' into Hq.
    rewrite list_lookup_fmap, Hq. simpl. f_equal.
    unfold embedding_point, truthy_string. f_equal.
    destruct (qp_payload_title q) as [title|]; [|done].
    destruct (String.eqb_spec title ""), (decide (title = "")); done.
  - intros points H.
    destruct (fetch _) as [response|]; [|done].
    destruct (ok response); simpl in H; [|done].
    destruct (json response) as [data|]; [|done]. injection H as <-.
    apply Forall_forall. intros p [q [-> _]]%list_elem_of_fmap.
    unfold embedding_point, truthy_string. simpl. intros Hid.
    destruct (qp_payload_title q) as [title|]; [|done].
    destruct (String.eqb_spec title ""); done.
Qed.

(** Two Qdrant points, the second with an empty title. *)
Example embedding_fetchVectors_two_points :
  embedding_fetchVectors
    (fun url =>
       if String.eqb url "http://localhost:6333/collections/notes/points/scroll"
       then Returned (mkResponse true "OK"
              (Returned (Some (Some [mkQdrantPoint "p1" [1; 2]%float (Some "First");
                                     mkQdrantPoint "p2" [3; 4]%float (Some "")]))))
       else Thrown "unreachable")
    (mkConfig EMBEDDING_MODEL "notes" "notes (Embedding)" 2)
    (EmbeddingSourceConfig "notes" "notes" None)
  = Returned [mkPoint "p1" "First" [1; 2]%float [0; 0; 0]%float 0
                "notes" "notes (Embedding)" EMBEDDING_MODEL;
              mkPoint "p2" "p2" [3; 4]%float [0; 0; 0]%float 0
                "notes" "notes (Embedding)" EMBEDDING_MODEL].
Proof. reflexivity. Qed.
